(** * Markjar: a line-oriented editing surface (src/src/markjar.ts)

    A shallow embedding of the [Markjar] class and of its helper functions,
    and the properties of the line synchronizer, the position mapper and the
    idle scheduler that the specification states about them.

    The DOM is modelled in two levels.  A [Node] is an immutable tree: a text
    node or an element with its tag, class list and child nodes.  Node
    objects that the code holds a reference to (the child nodes of the
    editor, lines that were removed from it) live in a store, [heap], under a
    numeric reference that stands for their JavaScript object identity; the
    editor's [childNodes] is a list of such references.  A node below a
    stored object is addressed by the object's reference and a path of child
    indices.

    A JavaScript string is a [string], one character for one code unit.  A
    call that can throw returns a [Completion].  The tokenizer
    (highlight.js) and the tree patcher (morphdom) are parameters, and the
    host's stringification of a range is a field of the range. *)

From Stdlib Require Import ZArith Lia Ascii String.
From stdpp Require Import base list strings gmap.

Open Scope string_scope.
Open Scope list_scope.

(** ** Strings: [String.prototype.split] and [Array.prototype.join] with the
    one-character separator ["\n"]. *)

Definition LF : ascii := "010"%char.

(** [text.split('\n')]: the pieces between the separators, at least one. *)
Fixpoint split (text : string) : list string :=
  match text with
  | EmptyString => [""]
  | String c rest =>
      if Ascii.eqb c LF then "" :: split rest
      else match split rest with
           | piece :: pieces => String c piece :: pieces
           | [] => [String c ""]
           end
  end.

(** [lines.join('\n')]. *)
Fixpoint join (lines : list string) : string :=
  match lines with
  | [] => ""
  | [line] => line
  | line :: rest => (line ++ String LF (join rest))%string
  end.

(** A line text is free of the separator. *)
Fixpoint sepFree (line : string) : Prop :=
  match line with
  | EmptyString => True
  | String c rest => c <> LF /\ sepFree rest
  end.

(** ** DOM nodes *)

#[local] Unset Elimination Schemes.
Inductive Node : Type :=
| Text (data : string)
| Element (tagName : string) (classList : list string) (childNodes : list Node).
#[local] Set Elimination Schemes.

Definition isElement (n : Node) : bool :=
  match n with Element _ _ _ => true | Text _ => false end.

Definition concatText (pieces : list string) : string :=
  fold_right String.append "" pieces.

(** [node.textContent]: the data of the text nodes below, in tree order. *)
Fixpoint textContent (n : Node) : string :=
  match n with
  | Text data => data
  | Element _ _ cs => concatText (map textContent cs)
  end.

Definition nodeChildren (n : Node) : list Node :=
  match n with Element _ _ cs => cs | Text _ => [] end.

Definition hasClass (cls : string) (n : Node) : bool :=
  match n with
  | Element _ classes _ => existsb (String.eqb cls) classes
  | Text _ => false
  end.

(** [isFixedWidthBlock] and [shouldSetCursor]: an element node carrying the
    class. *)
Definition isFixedWidthBlock (n : Node) : bool := isElement n && hasClass "mj-block" n.
Definition shouldSetCursor (n : Node) : bool := isElement n && hasClass "mj-cursor" n.

(** ** The editor *)

Record Page : Type := mkPage {
  heap : gmap nat Node;      (* node objects by identity *)
  childNodes : list nat      (* editor.childNodes *)
}.

Definition isElementRef (h : gmap nat Node) (r : nat) : bool :=
  match h !! r with Some n => isElement n | None => false end.

(** [editor.children]: the element children, in order. *)
Definition children (p : Page) : list nat :=
  List.filter (isElementRef (heap p)) (childNodes p).

Definition textOf (p : Page) (r : nat) : string :=
  match heap p !! r with Some n => textContent n | None => "" end.

(** The DOM's invariant on the editor: a node is a child once, and every
    child is a live object. *)
Definition wellFormed (p : Page) : Prop :=
  NoDup (childNodes p) /\ forall r, r ∈ childNodes p -> is_Some (heap p !! r).

(** The constructor: [editor.innerHTML = '<div class="mj-line"></div>']. *)
Definition construct : Page :=
  mkPage {[ 0 := Element "div" ["mj-line"] [] ]} [0].

(** [getText]. *)
Definition getText (p : Page) : string :=
  join (map (textOf p) (children p)).

(** A reference no stored object has: the identity of a node made by
    [document.createElement]. *)
Definition freshRef (p : Page) : nat := fresh (dom (heap p)).

Fixpoint replaceRef (new old : nat) (refs : list nat) : list nat :=
  match refs with
  | [] => []
  | r :: rest => if Nat.eqb r old then new :: rest else r :: replaceRef new old rest
  end.

(** [editor.replaceChild(newNode, oldChild)] with a node just created. *)
Definition replaceChild (newNode : Node) (old : nat) (p : Page) : Page :=
  let r := freshRef p in
  mkPage (<[r := newNode]> (heap p)) (replaceRef r old (childNodes p)).

(** [editor.appendChild(newNode)] with a node just created. *)
Definition appendChild (newNode : Node) (p : Page) : Page :=
  let r := freshRef p in
  mkPage (<[r := newNode]> (heap p)) (childNodes p ++ [r]).

(** [editor.removeChild(editor.lastChild)]: the object stays in the store,
    out of the editor. *)
Definition removeLastChild (p : Page) : Page :=
  mkPage (heap p) (removelast (childNodes p)).

Section Markjar.

(** The tokenizer, [doHighlight], seen through [innerHTML]: the nodes that
    parsing [hljs.highlight(text, ...).value] yields. *)
Variable doHighlight : string -> list Node.

(** The tokenizer's round-trip contract. *)
Definition tokenizerRoundTrip : Prop :=
  forall text, concatText (map textContent (doHighlight text)) = text.

(** [createLine]: [text ? doHighlight(text) : '<br>'] inside a [div.mj-line]. *)
Definition createLine (text : string) : Node :=
  Element "div" ["mj-line"]
    (if String.eqb text "" then [Element "br" [] []] else doHighlight text).

(** [updateLine]: the line, with a [span.mj-cursor] after a last child that
    is a fixed-width block. *)
Definition updateLine (text : string) : Node :=
  let cs := nodeChildren (createLine text) in
  match last cs with
  | Some lastChild =>
      if isFixedWidthBlock lastChild
      then Element "div" ["mj-line"] (cs ++ [Element "span" ["mj-cursor"] []])
      else createLine text
  | None => createLine text
  end.

(** One turn of the [for] loop of [#updateText]. *)
Definition updateTextAt (i : nat) (line : string) (p : Page) : Page :=
  match children p !! i with
  | Some r =>
      if String.eqb line (textOf p r) then p
      else replaceChild (createLine line) r p
  | None => appendChild (createLine line) p
  end.

Fixpoint updateTextFrom (i : nat) (textLines : list string) (p : Page) : Page :=
  match textLines with
  | [] => p
  | line :: rest => updateTextFrom (S i) rest (updateTextAt i line p)
  end.

(** The [while] loop of [#updateText]; every turn takes one node off
    [childNodes], so its length bounds the number of turns. *)
Fixpoint trimFrom (turns : nat) (n : nat) (p : Page) : Page :=
  match turns with
  | 0 => p
  | S turns' =>
      if Nat.ltb n (length (children p)) then trimFrom turns' n (removeLastChild p)
      else p
  end.

Definition trim (n : nat) (p : Page) : Page := trimFrom (length (childNodes p)) n p.

(** [#updateText]. *)
Definition updateText (text : string) (p : Page) : Page :=
  let textLines := split text in
  trim (length textLines) (updateTextFrom 0 textLines p).


(** ** Node references, ranges and the host window *)

(** What a [Node] variable of the code can denote. *)
Inductive NodeRef : Type :=
| RDocument                                       (* the document *)
| REditor                                         (* the editor element *)
| RAncestor (k : nat)                             (* the k-th ancestor element of the editor, its parent first *)
| RNode (root : nat) (path : list nat)            (* the node at [path] below the stored object [root] *)
| RForeign (name : string) (ancestors : list string).
    (* a node elsewhere in the document: its node name and the tag names of
       its ancestor elements, its parent first *)

#[global] Instance NodeRef_eq_dec : EqDecision NodeRef.
Proof. solve_decision. Defined.

(** A boundary point: what [range.setEnd(node, offset); range.collapse()]
    leaves the range at. *)
Record Boundary : Type := mkBoundary { container : NodeRef; offset : nat }.

(** [document.createRange()]: collapsed at the start of the document. *)
Definition createRange : Boundary := mkBoundary RDocument 0.

(** A range of the host's selection, as [#getCursorPos] reads it:
    [preLength element] is the length of the string that the range from the
    start of [element]'s contents to [(endContainer, endOffset)] has (the
    host's [selectNodeContents], [setEnd] and [toString]). *)
Record Range : Type := mkRange {
  startContainer : NodeRef;
  endContainer : NodeRef;
  endOffset : nat;
  preLength : NodeRef -> nat
}.

(** The host window: where the editor sits in the document and what
    [window.getSelection()] returns ([None] for [null], else the ranges of
    the selection). *)
Record Window : Type := mkWindow {
  editorTag : string;
  editorAncestors : list string;
  getSelection : option (list Range)
}.

Record CursorPos : Type := mkCursorPos { line : Z; column : nat }.

Inductive Completion (A : Type) : Type :=
| Normal (value : A)
| Throw (error : string).
#[global] Arguments Normal {A} value.
#[global] Arguments Throw {A} error.

Definition isDiv (n : Node) : bool :=
  match n with Element tag _ _ => String.eqb tag "div" | Text _ => false end.

(** The deepest [div] among the nodes on [path] below [n], [n] included. *)
Fixpoint deepestDiv (n : Node) (path : list nat) : option (list nat) :=
  match path with
  | [] => if isDiv n then Some [] else None
  | k :: rest =>
      match nodeChildren n !! k with
      | Some c =>
          match deepestDiv c rest with
          | Some q => Some (k :: q)
          | None => if isDiv n then Some [] else None
          end
      | None => if isDiv n then Some [] else None
      end
  end.

(** The position of the first [div] in a chain of tag names. *)
Fixpoint firstDiv (tags : list string) : option nat :=
  match tags with
  | [] => None
  | tag :: up => if String.eqb tag "div" then Some 0 else S <$> firstDiv up
  end.

Definition attached (p : Page) (r : nat) : bool :=
  existsb (Nat.eqb r) (childNodes p).

(** [node.parentElement]. *)
Definition parentElement (p : Page) (w : Window) (node : NodeRef) : option NodeRef :=
  match node with
  | RDocument => None
  | REditor =>
      match editorAncestors w with [] => None | _ :: _ => Some (RAncestor 0) end
  | RAncestor k =>
      if Nat.ltb (S k) (length (editorAncestors w)) then Some (RAncestor (S k)) else None
  | RNode root [] => if attached p root then Some REditor else None
  | RNode root path => Some (RNode root (removelast path))
  | RForeign _ [] => None
  | RForeign _ (tag :: up) => Some (RForeign tag up)
  end.

(** [element.closest('div')] from the editor upwards. *)
Definition closestFromEditor (w : Window) : option NodeRef :=
  if String.eqb (editorTag w) "div" then Some REditor
  else RAncestor <$> firstDiv (editorAncestors w).

(** [element.closest('div')]: the nearest [div] among the element and its
    ancestors. *)
Definition closestDiv (p : Page) (w : Window) (element : NodeRef) : option NodeRef :=
  match element with
  | RDocument => None
  | REditor => closestFromEditor w
  | RAncestor k => (fun j => RAncestor (k + j)) <$> firstDiv (drop k (editorAncestors w))
  | RNode root path =>
      match heap p !! root with
      | Some n =>
          match deepestDiv n path with
          | Some q => Some (RNode root q)
          | None => if attached p root then closestFromEditor w else None
          end
      | None => None
      end
  | RForeign name up =>
      if String.eqb name "div" then Some element
      else match firstDiv up with
           | Some j =>
               match drop j up with
               | tag :: above => Some (RForeign tag above)
               | [] => None
               end
           | None => None
           end
  end.

(** [#getLineElement]. *)
Definition getLineElement (p : Page) (w : Window) (node : NodeRef) : option NodeRef :=
  if decide (node = REditor) then None
  else match parentElement p w node with
       | None => None
       | Some parent =>
           if decide (parent = REditor) then Some node
           else closestDiv p w parent
       end.

(** [Array.prototype.indexOf.call(editor.children, element)]. *)
Fixpoint indexOfRef (refs : list nat) (r : nat) : Z :=
  match refs with
  | [] => (-1)%Z
  | x :: rest =>
      if Nat.eqb x r then 0%Z
      else let i := indexOfRef rest r in if (i <? 0)%Z then (-1)%Z else (i + 1)%Z
  end.

Definition indexOf (p : Page) (element : NodeRef) : Z :=
  match element with
  | RNode root [] => indexOfRef (children p) root
  | _ => (-1)%Z
  end.

(** [#getCursorPos]; [selection.getRangeAt(0)] throws an [IndexSizeError]
    when the selection has no range. *)
Definition getCursorPos (p : Page) (w : Window) : Completion (option CursorPos) :=
  match getSelection w with
  | None => Normal None
  | Some [] => Throw "IndexSizeError"
  | Some (range :: _) =>
      match getLineElement p w (startContainer range) with
      | None => Normal None
      | Some element =>
          Normal (Some (mkCursorPos (indexOf p element) (preLength range element)))
      end
  end.

(** ** [moveCursorToColumn] *)

(** The variables of [moveCursorToColumn]: [offset], [found] and the range;
    [visited] counts the text nodes [walkNode] has looked at. *)
Record Walk : Type := mkWalk {
  acc : nat;
  found : bool;
  caret : Boundary;
  visited : nat
}.

(** [moveTo(node)]: [parentNext] is [node.parentElement.nextSibling] and
    [before] the value of [offset]. *)
Definition moveTo (column : nat) (leaf : NodeRef)
    (parentNext : option (NodeRef * Node)) (before : nat) : Boundary :=
  match parentNext with
  | Some (sibling, siblingNode) =>
      if shouldSetCursor siblingNode then mkBoundary sibling 0
      else mkBoundary leaf (column - before)
  | None => mkBoundary leaf (column - before)
  end.

(** [for (const child of node.childNodes) { if (found) break; walk(child); }];
    [walk k next child] walks the [k]-th child, whose next sibling is [next]. *)
Fixpoint forChildren (walk : nat -> option Node -> Node -> Walk -> Walk)
    (k : nat) (cs : list Node) (st : Walk) : Walk :=
  match cs with
  | [] => st
  | child :: rest =>
      if found st then st
      else forChildren walk (S k) rest (walk k (head rest) child st)
  end.

(** [walkNode(node)] for the node at [path] below the object [root];
    [parentNext] and [selfNext] are the next siblings of its parent and of
    the node itself. *)
Fixpoint walkNode (column root : nat) (path : list nat)
    (parentNext selfNext : option (NodeRef * Node)) (node : Node) (st : Walk) : Walk :=
  match node with
  | Text text =>
      if Nat.leb column (acc st + String.length text)
      then mkWalk (acc st) true (moveTo column (RNode root path) parentNext (acc st))
                  (S (visited st))
      else mkWalk (acc st + String.length text) (found st) (caret st) (S (visited st))
  | Element _ _ cs =>
      forChildren
        (fun k next child =>
           walkNode column root (path ++ [k]) selfNext
             ((fun n => (RNode root (path ++ [S k]), n)) <$> next) child)
        0 cs st
  end.

(** [element.nextSibling] for a child of the editor. *)
Fixpoint nextRef (refs : list nat) (r : nat) : option nat :=
  match refs with
  | [] => None
  | x :: rest => if Nat.eqb x r then head rest else nextRef rest r
  end.

Definition nextSibling (p : Page) (r : nat) : option (NodeRef * Node) :=
  match nextRef (childNodes p) r with
  | Some s => (fun n => (RNode s [], n)) <$> heap p !! s
  | None => None
  end.

Definition moveCursorToColumn (p : Page) (r : nat) (element : Node)
    (column : nat) (range : Boundary) : Walk :=
  if Nat.eqb (String.length (textContent element)) 0
  then mkWalk 0 false (mkBoundary (RNode r []) 0) 0
  else walkNode column r [] None (nextSibling p r) element (mkWalk 0 false range 0).

(** [#setCursorPos]: [Some b] when the selection is replaced by the range
    collapsed at [b], [None] when it is left alone.  With no element child
    [editor.children[validLine]] is [undefined] and reading its
    [textContent] throws. *)
Definition validLine (p : Page) (pos : CursorPos) : Z :=
  Z.min (Z.max (line pos) 0) (Z.of_nat (length (children p)) - 1).

Definition setCursorPos (p : Page) (w : Window) (pos : option CursorPos)
    : Completion (option Boundary) :=
  match pos, getSelection w with
  | Some pos, Some _ =>
      if (validLine p pos <? 0)%Z then Throw "TypeError"
      else
        match children p !! Z.to_nat (validLine p pos) with
        | Some r =>
            match heap p !! r with
            | Some element =>
                Normal (Some (caret (moveCursorToColumn p r element (column pos) createRange)))
            | None => Throw "TypeError"
            end
        | None => Throw "TypeError"
        end
  | _, _ => Normal None
  end.

(** [setText]: the page it leaves and how it completes. *)
Definition setText (text : string) (w : Window) (p : Page)
    : Page * Completion (option Boundary) :=
  match getCursorPos p w with
  | Throw e => (p, Throw e)
  | Normal pos =>
      let p' := updateText text p in
      (p', setCursorPos p' w pos)
  end.

(** The editor after construction and a series of [setText] calls, each
    with the window of its moment; a call that throws leaves the page as
    it was when it threw. *)
Definition afterCalls (calls : list (string * Window)) : Page :=
  fold_left (fun p call => fst (setText (fst call) (snd call) p)) calls construct.

(** ** The reconciliation pass and its scheduler *)

(** The tree patcher, [morphdom(line, newLine)]: the node that the object
    [line] has become, from the node it was and the desired one. *)
Variable morphdom : Node -> Node -> Node.

Inductive Diagnostic : Type :=
| Warn (message : string) (subject : NodeRef)     (* console.warn *)
| AssertionFailed.                                (* console.assert on a false condition *)

(** The instance and the part of the host it drives: [#changedLines] in
    insertion order, the variable [id] of [makeIdle], the host's pending
    idle callbacks and its counter of handles, and the console.  [passes]
    records, for every run of the deferred function, the dirty set it met. *)
Record Markjar : Type := mkMarkjar {
  page : Page;
  changedLines : list NodeRef;
  idleId : option nat;
  idleCallbacks : list nat;
  idleCounter : nat;
  console : list Diagnostic;
  passes : list (list NodeRef)
}.

(** [new Markjar(editor)] on a host that has given out no handle yet. *)
Definition newMarkjar : Markjar := mkMarkjar construct [] None [] 0 [] [].

(** [Set.prototype.add]. *)
Definition setAdd (x : NodeRef) (xs : list NodeRef) : list NodeRef :=
  if decide (x ∈ xs) then xs else xs ++ [x].

(** The callback of [#changedLines.forEach]. *)
Definition patchLine (w : Window) (st : Page * list Diagnostic) (dirty : NodeRef)
    : Page * list Diagnostic :=
  let (p, out) := st in
  if decide (parentElement p w dirty = Some REditor) then
    match dirty with
    | RNode r [] =>
        match heap p !! r with
        | Some old =>
            (mkPage (<[r := morphdom old (updateLine (textContent old))]> (heap p))
                    (childNodes p), out)
        | None => st
        end
    | _ => st
    end
  else (p, out ++ [Warn "Line not in editor" dirty]).

Definition isBr (h : gmap nat Node) (r : nat) : bool :=
  match h !! r with
  | Some (Element tag _ _) => String.eqb tag "br"
  | _ => false
  end.

(** [editor.querySelectorAll(':scope > br').forEach(br => ...)]. *)
Definition normalizeBreaks (p : Page) : Page :=
  fold_left (fun q br => replaceChild (createLine "") br q)
            (List.filter (isBr (heap p)) (childNodes p)) p.

(** The function that [#requestForUpdate] defers. *)
Definition reconcile (w : Window) (m : Markjar)
    : Markjar * Completion (option Boundary) :=
  let ran := passes m ++ [changedLines m] in
  match getCursorPos (page m) w with
  | Throw e =>
      (mkMarkjar (page m) (changedLines m) (idleId m) (idleCallbacks m)
                 (idleCounter m) (console m) ran, Throw e)
  | Normal pos =>
      let (patched, out) := fold_left (patchLine w) (changedLines m) (page m, console m) in
      let p := normalizeBreaks patched in
      (mkMarkjar p [] (idleId m) (idleCallbacks m) (idleCounter m) out ran,
       setCursorPos p w pos)
  end.

(** [cancelIdleCallback(id)]. *)
Definition cancelIdleCallback (id : option nat) (pending : list nat) : list nat :=
  match id with
  | Some h => List.filter (fun x => negb (Nat.eqb x h)) pending
  | None => pending
  end.

(** A call of the function [makeIdle] returns: cancel, then request. *)
Definition requestForUpdate (m : Markjar) : Markjar :=
  let h := S (idleCounter m) in
  mkMarkjar (page m) (changedLines m) (Some h)
            (cancelIdleCallback (idleId m) (idleCallbacks m) ++ [h]) h
            (console m) (passes m).

(** [#onBeforeInput]; [targetRanges] holds the start containers of
    [event.getTargetRanges()]. *)
Definition onBeforeInput (w : Window) (targetRanges : list NodeRef) (m : Markjar)
    : Markjar * Completion unit :=
  let out := if Nat.eqb (length targetRanges) 1 then console m
             else console m ++ [AssertionFailed] in
  let m1 := mkMarkjar (page m) (changedLines m) (idleId m) (idleCallbacks m)
                      (idleCounter m) out (passes m) in
  match targetRanges with
  | [] => (m1, Throw "TypeError")
  | start :: _ =>
      match getLineElement (page m) w start with
      | Some dirty =>
          (requestForUpdate
             (mkMarkjar (page m) (setAdd dirty (changedLines m)) (idleId m)
                        (idleCallbacks m) (idleCounter m) out (passes m)),
           Normal tt)
      | None => (m1, Normal tt)
      end
  end.

(** The host runs the pending idle callback [h]. *)
Definition runIdleCallback (w : Window) (h : nat) (m : Markjar) : Markjar :=
  if existsb (Nat.eqb h) (idleCallbacks m) then
    fst (reconcile w
           (mkMarkjar (page m) (changedLines m) (idleId m)
                      (List.filter (fun x => negb (Nat.eqb x h)) (idleCallbacks m))
                      (idleCounter m) (console m) (passes m)))
  else m.

(** What happens to an instance: an edit notification, the change that the
    host then makes to the document under the editor, and an idle period in
    which the host runs the callback [h]. *)
Inductive Event : Type :=
| BeforeInput (w : Window) (targetRanges : list NodeRef)
| HostEdit (edited : Page)
| Idle (w : Window) (h : nat).

Definition step (m : Markjar) (e : Event) : Markjar :=
  match e with
  | BeforeInput w targetRanges => fst (onBeforeInput w targetRanges m)
  | HostEdit edited =>
      mkMarkjar edited (changedLines m) (idleId m) (idleCallbacks m)
                (idleCounter m) (console m) (passes m)
  | Idle w h => runIdleCallback w h m
  end.

Definition run (m : Markjar) (events : list Event) : Markjar :=
  fold_left step events m.

(** The lines that the edit notifications among [events] resolve to, each
    at its moment. *)
Fixpoint affectedLines (m : Markjar) (events : list Event) : list NodeRef :=
  match events with
  | [] => []
  | e :: rest =>
      match e with
      | BeforeInput w (start :: _) =>
          match getLineElement (page m) w start with
          | Some dirty => [dirty]
          | None => []
          end
      | _ => []
      end ++ affectedLines (step m e) rest
  end.

End Markjar.

(** ** Predicates of the statements *)

(** Every object of [p] is an object of [p'], unchanged. *)
Definition persists (p p' : Page) : Prop :=
  forall r n, heap p !! r = Some n -> heap p' !! r = Some n.

(** What a pass of [#updateText] over [p] leaves at index [j] for the
    desired text [line]: the same object when the line at [j] had that
    text, else an object that [p] did not have, holding [node]. *)
Definition slotSynced (p p' : Page) (j : nat) (line : string) (node : Node) : Prop :=
  (exists r, children p !! j = Some r /\ textOf p r = line /\
             children p' !! j = Some r /\ heap p' !! r = heap p !! r)
  \/ ((forall r, children p !! j = Some r -> textOf p r <> line) /\
      exists r', children p' !! j = Some r' /\ heap p !! r' = None /\
                 heap p' !! r' = Some node).

(** The text leaves of a line as [walkNode] meets them: the leaf, the next
    sibling of its parent, and its text. *)
Record Leaf : Type := mkLeaf {
  leafRef : NodeRef;
  leafParentNext : option (NodeRef * Node);
  leafText : string
}.

Fixpoint flatChildren (leaves : nat -> option Node -> Node -> list Leaf)
    (k : nat) (cs : list Node) : list Leaf :=
  match cs with
  | [] => []
  | child :: rest => leaves k (head rest) child ++ flatChildren leaves (S k) rest
  end.

Fixpoint leavesOf (root : nat) (path : list nat)
    (parentNext selfNext : option (NodeRef * Node)) (node : Node) : list Leaf :=
  match node with
  | Text text => [mkLeaf (RNode root path) parentNext text]
  | Element _ _ cs =>
      flatChildren
        (fun k next child =>
           leavesOf root (path ++ [k]) selfNext
             ((fun n => (RNode root (path ++ [S k]), n)) <$> next) child)
        0 cs
  end.

(** The leaves of the line [r] of the editor. *)
Definition lineLeaves (p : Page) (r : nat) (element : Node) : list Leaf :=
  leavesOf r [] None (nextSibling p r) element.

Definition totalLength (leaves : list Leaf) : nat :=
  list_sum (map (fun l => String.length (leafText l)) leaves).

(** What [walkNode] does at a text node. *)
Definition visitLeaf (column : nat) (l : Leaf) (st : Walk) : Walk :=
  if Nat.leb column (acc st + String.length (leafText l))
  then mkWalk (acc st) true (moveTo column (leafRef l) (leafParentNext l) (acc st))
              (S (visited st))
  else mkWalk (acc st + String.length (leafText l)) (found st) (caret st)
              (S (visited st)).

(** The walk over the leaves in order, up to the first that reaches the
    column. *)
Fixpoint scanLeaves (column : nat) (leaves : list Leaf) (st : Walk) : Walk :=
  match leaves with
  | [] => st
  | l :: rest => if found st then st else scanLeaves column rest (visitLeaf column l st)
  end.

(** No idle period: the deferred task does not fire. *)
Definition noIdle (e : Event) : Prop :=
  match e with Idle _ _ => False | _ => True end.

(** At most the callback that [id] names is pending. *)
Definition singleSlot (m : Markjar) : Prop :=
  idleCallbacks m = [] \/ exists h, idleId m = Some h /\ idleCallbacks m = [h].

(** The tree patcher's contract: the patched node is the desired one. *)
Definition patcherDelivers (morphdom : Node -> Node -> Node) : Prop :=
  forall existing desired, morphdom existing desired = desired.

(** The dirty lines that are children of the editor are elements. *)
Definition dirtyLinesAreElements (p : Page) (dirty : list NodeRef) : Prop :=
  forall r, RNode r [] ∈ dirty -> attached p r = true ->
            isElementRef (heap p) r = true.

(** A [br] that is a child of the editor holds no text. *)
Definition strayBreaksEmpty (p : Page) : Prop :=
  forall r, r ∈ childNodes p -> isBr (heap p) r = true -> textOf p r = "".

(** The node at a path below a node. *)
Fixpoint nodeAt (n : Node) (path : list nat) : option Node :=
  match path with
  | [] => Some n
  | k :: rest =>
      match nodeChildren n !! k with
      | Some c => nodeAt c rest
      | None => None
      end
  end.

(** The text of [n] that precedes, in tree order, the node at [path]. *)
Fixpoint textBefore (n : Node) (path : list nat) : string :=
  match path with
  | [] => ""
  | k :: rest =>
      match nodeChildren n !! k with
      | Some c =>
          (concatText (map textContent (take k (nodeChildren n)))
           ++ textBefore c rest)%string
      | None => ""
      end
  end.

(** No leaf has an anchor marker as the next sibling of its parent. *)
Definition anchorFree (leaves : list Leaf) : Prop :=
  Forall (fun l => match leafParentNext l with
                   | Some (_, sibling) => shouldSetCursor sibling = false
                   | None => True
                   end) leaves.

(** A [div] at or below a node. *)
Fixpoint hasDiv (n : Node) : bool :=
  match n with
  | Text _ => false
  | Element tag _ cs => String.eqb tag "div" || existsb hasDiv cs
  end.

(** The dirty nodes that are children of the editor. *)
Definition editorChildren (p : Page) (w : Window) (dirty : list NodeRef)
    : list NodeRef :=
  List.filter (fun d => bool_decide (parentElement p w d = Some REditor)) dirty.

(** The instance with another dirty set. *)
Definition withChangedLines (dirty : list NodeRef) (m : Markjar) : Markjar :=
  mkMarkjar (page m) dirty (idleId m) (idleCallbacks m) (idleCounter m)
            (console m) (passes m).

(** ** Sample data *)

(** A patcher that makes the node the desired one. *)
Definition patchToDesired (existing desired : Node) : Node := desired.


(** A tokenizer with no rule: the text as one plain leaf. *)
Definition plainTokenizer (text : string) : list Node := [Text text].

(** The class list of an [H1_HASH] span as highlight.js writes it. *)
Definition H1_HASH : list string := ["hljs-section"; "mj-hash"; "mj-h1-hash"; "mj-block"].

(** A tokenizer with the [H1_HASH] and [HEADER_TEXT] rules only. *)
Definition headingTokenizer (text : string) : list Node :=
  match text with
  | String "#" (String " " EmptyString) => [Element "span" H1_HASH [Text "# "]]
  | String "#" (String " " rest) =>
      [Element "span" H1_HASH [Text "# "]; Element "span" ["hljs-section"] [Text rest]]
  | _ => [Text text]
  end.

Definition twoLines : string := "ab" ++ String LF "cd".

(** A window whose selection is a caret in the first leaf of the object 0. *)
Definition caretWindow : Window :=
  mkWindow "div" ["body"; "html"]
    (Some [mkRange (RNode 0 [0]) (RNode 0 [0]) 0 (fun _ => 0)]).

(** A window whose selection has no range. *)
Definition noRangeWindow : Window := mkWindow "div" ["body"; "html"] (Some []).

(** A window whose selection is a caret in a paragraph of another [div] of
    the document, outside the editor. *)
Definition outsideText : NodeRef := RForeign "#text" ["p"; "div"; "body"; "html"].

Definition outsideWindow : Window :=
  mkWindow "div" ["body"; "html"] (Some [mkRange outsideText outsideText 4 (fun _ => 4)]).

(** An editor holding one line, "ab", with the emptied first line detached:
    the object 0 is out of the editor, the object 1 is its only child. *)
Definition oneLinePage : Page := updateText plainTokenizer "ab" construct.

(** An editor of two lines, "ab" and "cd" (the objects 1 and 2). *)
Definition twoLinePage : Page := updateText plainTokenizer twoLines construct.

(** An editor of six lines (the objects 1 to 6) and a window whose caret is
    at column 3 of the last one. *)
Definition sixLines : string :=
  "l0" ++ String LF ("l1" ++ String LF ("l2" ++ String LF
    ("l3" ++ String LF ("l4" ++ String LF "line5")))).

Definition sixLinePage : Page := updateText plainTokenizer sixLines construct.

Definition lastLineWindow : Window :=
  mkWindow "div" ["body"; "html"]
    (Some [mkRange (RNode 6 [0]) (RNode 6 [0]) 3 (fun _ => 3)]).

Definition shortLines : string := "a" ++ String LF "b".

(** The line that [updateLine] renders for "# ": the marker span and the
    anchor. *)
Definition markerLine : Node := updateLine headingTokenizer "# ".

(** An editor whose only line is that one, as a pass leaves it. *)
Definition markerPage : Page := mkPage {[ 0 := markerLine ]} [0].

(** An instance with two dirty lines, of which the object 0 is no longer in
    the editor. *)
Definition staleMarkjar : Markjar :=
  mkMarkjar oneLinePage [RNode 0 []; RNode 1 []] None [] 0 [] [].

(** A window whose caret is in the text of the second of the two lines. *)
Definition secondLineWindow : Window :=
  mkWindow "div" ["body"; "html"]
    (Some [mkRange (RNode 2 [0]) (RNode 2 [0]) 1 (fun _ => 1)]).

(** An editor with the line "ab" and a stray [br] after it. *)
Definition brPage : Page :=
  mkPage (<[1 := Element "br" [] []]> {[ 0 := Element "div" ["mj-line"] [Text "ab"] ]})
         [0; 1].

(** The first line of a new editor after the user typed "# " into it. *)
Definition typedPage : Page := mkPage {[ 0 := Element "div" ["mj-line"] [Text "# "] ]} [0].

(** An instance with the line 0 dirty and the task 1 pending. *)
Definition armedMarkjar : Markjar :=
  mkMarkjar construct [RNode 0 []] (Some 1) [1] 1 [] [].

(** * Properties *)

Section Properties.

Variable doHighlight : string -> list Node.
Variable morphdom : Node -> Node -> Node.

(** ** [split] and [join] *)

Lemma split_nonempty text : split text <> [].
Proof.
  destruct text as [|c rest]; simpl; [discriminate|].
  destruct (Ascii.eqb c LF); [discriminate|].
  destruct (split rest); discriminate.
Qed.

Lemma split_length text : 1 <= length (split text).
Proof.
  pose proof (split_nonempty text) as H.
  destruct (split text); [congruence | simpl; lia].
Qed.

Lemma join_split text : join (split text) = text.
Proof.
  induction text as [|c rest IH]; simpl; [reflexivity|].
  pose proof (split_nonempty rest) as Hne.
  destruct (Ascii.eqb c LF) eqn:Hc.
  - apply Ascii.eqb_eq in Hc. subst c.
    destruct (split rest) as [|piece pieces] eqn:Hs; [congruence|].
    change (join ("" :: piece :: pieces)) with (String LF (join (piece :: pieces))).
    now rewrite IH.
  - destruct (split rest) as [|piece pieces] eqn:Hs; [congruence|].
    destruct pieces as [|piece' pieces'].
    + simpl in *. now rewrite IH.
    + change (join (String c piece :: piece' :: pieces'))
        with (String c (piece ++ String LF (join (piece' :: pieces')))%string).
      change (join (piece :: piece' :: pieces'))
        with ((piece ++ String LF (join (piece' :: pieces')))%string) in IH.
      now rewrite IH.
Qed.

Lemma split_sepFree line : sepFree line -> split line = [line].
Proof.
  induction line as [|c rest IH]; simpl; [reflexivity|].
  intros [Hc Hrest].
  destruct (Ascii.eqb c LF) eqn:E; [apply Ascii.eqb_eq in E; contradiction|].
  now rewrite (IH Hrest).
Qed.

Lemma split_append_sep line text :
  sepFree line -> split (line ++ String LF text)%string = line :: split text.
Proof.
  induction line as [|c rest IH]; simpl.
  - intros _. reflexivity.
  - intros [Hc Hrest].
    destruct (Ascii.eqb c LF) eqn:E; [apply Ascii.eqb_eq in E; contradiction|].
    now rewrite (IH Hrest).
Qed.

Lemma split_join lines :
  lines <> [] -> Forall sepFree lines -> split (join lines) = lines.
Proof.
  induction lines as [|l1 rest IH]; [congruence|].
  intros _ Hall. inversion Hall as [|? ? H1 Hrest]; subst.
  destruct rest as [|l2 rest'].
  - simpl. now apply split_sepFree.
  - change (join (l1 :: l2 :: rest'))
      with ((l1 ++ String LF (join (l2 :: rest')))%string).
    rewrite split_append_sep by assumption.
    f_equal. apply IH; [discriminate | assumption].
Qed.

(** ** Lists of references *)

Lemma replaceRef_filter (f f' : nat -> bool) new old refs :
  new ∉ refs -> (forall x, x <> new -> f' x = f x) -> f' new = true ->
  f old = true ->
  List.filter f' (replaceRef new old refs) = replaceRef new old (List.filter f refs).
Proof.
  intros Hnew Hagree Hf' Hold.
  induction refs as [|r rest IH]; simpl; [reflexivity|].
  apply not_elem_of_cons in Hnew as [Hne Hnew].
  destruct (Nat.eqb r old) eqn:E.
  - apply Nat.eqb_eq in E. subst r. simpl. rewrite Hf', Hold. simpl.
    rewrite Nat.eqb_refl. f_equal.
    apply filter_ext_in. intros a Ha. apply Hagree.
    intros ->. apply Hnew. now apply list_elem_of_In.
  - simpl. rewrite (Hagree r) by congruence.
    destruct (f r); simpl; [rewrite E; f_equal|]; now apply IH.
Qed.

Lemma replaceRef_insert new old (refs : list nat) i :
  NoDup refs -> refs !! i = Some old -> replaceRef new old refs = <[i:=new]> refs.
Proof.
  revert i. induction refs as [|r rest IH]; intros i Hnd Hi; [discriminate|].
  apply NoDup_cons in Hnd as [Hr Hnd].
  destruct i as [|i]; simpl in *.
  - injection Hi as ->. now rewrite Nat.eqb_refl.
  - assert (r <> old) as Hne.
    { intros ->. apply Hr. eapply list_elem_of_lookup_2; eauto. }
    apply Nat.eqb_neq in Hne. rewrite Hne. f_equal. now apply IH.
Qed.

Lemma elem_of_replaceRef new old refs x :
  x ∈ replaceRef new old refs -> x = new \/ x ∈ refs.
Proof.
  induction refs as [|r rest IH]; simpl; [intros H; now right|].
  destruct (Nat.eqb r old).
  - intros [->|H]%elem_of_cons; [now left | right; now apply elem_of_cons; right].
  - intros [->|H]%elem_of_cons; [right; apply elem_of_cons; now left|].
    destruct (IH H) as [->|H']; [now left | right; apply elem_of_cons; now right].
Qed.

Lemma NoDup_replaceRef new old refs :
  NoDup refs -> new ∉ refs -> NoDup (replaceRef new old refs).
Proof.
  induction refs as [|r rest IH]; simpl; intros Hnd Hnew; [constructor|].
  apply NoDup_cons in Hnd as [Hr Hnd].
  apply not_elem_of_cons in Hnew as [Hne Hnew].
  destruct (Nat.eqb r old).
  - apply NoDup_cons. split; assumption.
  - apply NoDup_cons. split; [|now apply IH].
    intros [->|H]%elem_of_replaceRef; [congruence | contradiction].
Qed.

Lemma filter_removelast (f : nat -> bool) refs :
  List.filter f (removelast refs) = List.filter f refs
  \/ List.filter f (removelast refs) = removelast (List.filter f refs).
Proof.
  induction refs as [|x front _] using rev_ind; [now left|].
  rewrite removelast_last, List.filter_app. simpl.
  destruct (f x).
  - right. now rewrite removelast_last.
  - left. now rewrite app_nil_r.
Qed.

Lemma take_removelast (n : nat) (l : list nat) :
  n < length l -> take n (removelast l) = take n l.
Proof.
  induction l as [|x front _] using rev_ind; [simpl; lia|].
  rewrite removelast_last, length_app. simpl. intros Hn.
  rewrite take_app_le by lia. reflexivity.
Qed.

Lemma elem_of_removelast (x : nat) l : x ∈ removelast l -> x ∈ l.
Proof.
  induction l as [|y front _] using rev_ind; [easy|].
  rewrite removelast_last. intros H. apply elem_of_app. now left.
Qed.

Lemma NoDup_removelast (l : list nat) : NoDup l -> NoDup (removelast l).
Proof.
  induction l as [|y front _] using rev_ind; [easy|].
  rewrite removelast_last. intros H. now apply NoDup_app in H as [H _].
Qed.


(** ** The editor's child list under [replaceChild], [appendChild] and
    [removeChild] *)

Lemma freshRef_None p : heap p !! freshRef p = None.
Proof.
  unfold freshRef. apply (not_elem_of_dom (D := gset nat)). apply is_fresh.
Qed.

Lemma freshRef_not_child p : wellFormed p -> freshRef p ∉ childNodes p.
Proof.
  intros [_ Hlive] Hin. destruct (Hlive _ Hin) as [n Hn].
  rewrite freshRef_None in Hn. discriminate.
Qed.

Lemma isElementRef_insert (h : gmap nat Node) r n x :
  x <> r -> isElementRef (<[r:=n]> h) x = isElementRef h x.
Proof. intros Hne. unfold isElementRef. now rewrite lookup_insert_ne. Qed.

Lemma isElementRef_insert_eq (h : gmap nat Node) r n :
  isElementRef (<[r:=n]> h) r = isElement n.
Proof. unfold isElementRef. now rewrite lookup_insert_eq. Qed.

Lemma children_elem p r : r ∈ children p -> r ∈ childNodes p /\ isElementRef (heap p) r = true.
Proof.
  unfold children. rewrite list_elem_of_In, filter_In, <- list_elem_of_In. tauto.
Qed.

Lemma NoDup_children p : wellFormed p -> NoDup (children p).
Proof.
  intros [Hnd _]. apply NoDup_ListNoDup, List.NoDup_filter.
  now apply NoDup_ListNoDup.
Qed.

Lemma children_replaceChild p node r i :
  wellFormed p -> isElement node = true -> children p !! i = Some r ->
  children (replaceChild node r p) = <[i := freshRef p]> (children p).
Proof.
  intros Hwf Hnode Hi. unfold children at 1, replaceChild. simpl.
  rewrite (replaceRef_filter (isElementRef (heap p))).
  - apply replaceRef_insert; [now apply NoDup_children | exact Hi].
  - now apply freshRef_not_child.
  - intros x Hx. now apply isElementRef_insert.
  - now rewrite isElementRef_insert_eq.
  - apply list_elem_of_lookup_2 in Hi. now apply children_elem in Hi.
Qed.

Lemma children_appendChild p node :
  wellFormed p -> isElement node = true ->
  children (appendChild node p) = children p ++ [freshRef p].
Proof.
  intros Hwf Hnode. unfold children, appendChild. simpl.
  rewrite List.filter_app. simpl. rewrite isElementRef_insert_eq, Hnode. f_equal.
  apply filter_ext_in. intros a Ha. apply isElementRef_insert.
  intros ->. apply (freshRef_not_child p Hwf). now apply list_elem_of_In.
Qed.

Lemma wellFormed_replaceChild p node r :
  wellFormed p -> wellFormed (replaceChild node r p).
Proof.
  intros Hwf. pose proof (freshRef_not_child p Hwf) as Hfresh.
  destruct Hwf as [Hnd Hlive]. split; simpl.
  - now apply NoDup_replaceRef.
  - intros x [->|Hx]%elem_of_replaceRef.
    + rewrite lookup_insert_eq. eauto.
    + rewrite lookup_insert_ne; [now apply Hlive | congruence].
Qed.

Lemma wellFormed_appendChild p node :
  wellFormed p -> wellFormed (appendChild node p).
Proof.
  intros Hwf. pose proof (freshRef_not_child p Hwf) as Hfresh.
  destruct Hwf as [Hnd Hlive]. split; simpl.
  - apply NoDup_app. split; [assumption|]. split.
    + intros x Hx ->%list_elem_of_singleton. contradiction.
    + apply NoDup_singleton.
  - intros x [Hx| ->%list_elem_of_singleton]%elem_of_app.
    + rewrite lookup_insert_ne; [now apply Hlive | congruence].
    + rewrite lookup_insert_eq. eauto.
Qed.

Lemma wellFormed_removeLastChild p :
  wellFormed p -> wellFormed (removeLastChild p).
Proof.
  intros [Hnd Hlive]. split; simpl.
  - now apply NoDup_removelast.
  - intros x Hx%elem_of_removelast. now apply Hlive.
Qed.

Lemma wellFormed_construct : wellFormed construct.
Proof.
  split; simpl.
  - apply NoDup_singleton.
  - intros r ->%list_elem_of_singleton. rewrite lookup_singleton_eq. eauto.
Qed.

Lemma children_construct : children construct = [0].
Proof. vm_compute. reflexivity. Qed.

Lemma isElement_createLine line : isElement (createLine doHighlight line) = true.
Proof. reflexivity. Qed.

(** ** The [for] loop of [#updateText] *)

Lemma persists_refl p : persists p p.
Proof. intros r n H. exact H. Qed.

Lemma persists_trans p q s : persists p q -> persists q s -> persists p s.
Proof. intros H1 H2 r n H. apply H2, H1, H. Qed.

Lemma persists_None p q r : persists p q -> heap q !! r = None -> heap p !! r = None.
Proof.
  intros Hpq Hq. destruct (heap p !! r) as [n|] eqn:E; [|reflexivity].
  apply Hpq in E. congruence.
Qed.

Lemma persists_insert_fresh p node childNodes' :
  persists p (mkPage (<[freshRef p := node]> (heap p)) childNodes').
Proof.
  intros r n H. simpl. rewrite lookup_insert_ne; [exact H|].
  intros <-. rewrite freshRef_None in H. discriminate.
Qed.

Lemma children_live p r : r ∈ children p -> is_Some (heap p !! r).
Proof.
  intros [_ H]%children_elem. unfold isElementRef in H.
  destruct (heap p !! r); [eauto | discriminate].
Qed.

Lemma textOf_persists p q r :
  persists p q -> is_Some (heap p !! r) -> textOf q r = textOf p r.
Proof.
  intros Hpq [n Hn]. unfold textOf. now rewrite Hn, (Hpq _ _ Hn).
Qed.

Lemma updateTextAt_spec i line p :
  wellFormed p -> i <= length (children p) ->
  let p1 := updateTextAt doHighlight i line p in
  wellFormed p1 /\ persists p p1 /\
  ((exists r, children p !! i = Some r /\ textOf p r = line /\ p1 = p)
   \/ (exists r', heap p !! r' = None /\
                  heap p1 !! r' = Some (createLine doHighlight line) /\
                  (forall r, children p !! i = Some r -> textOf p r <> line) /\
                  children p1 = if decide (i < length (children p))
                                then <[i:=r']> (children p)
                                else children p ++ [r'])).
Proof.
  intros Hwf Hi. unfold updateTextAt.
  destruct (children p !! i) as [r|] eqn:Hr.
  - destruct (String.eqb line (textOf p r)) eqn:Heq.
    + apply String.eqb_eq in Heq. split; [assumption|]. split; [apply persists_refl|].
      left. exists r. auto.
    + apply String.eqb_neq in Heq.
      split; [now apply wellFormed_replaceChild|].
      split; [apply persists_insert_fresh|].
      right. exists (freshRef p). split; [apply freshRef_None|].
      split; [simpl; apply lookup_insert_eq|].
      split; [intros r0 [= <-]; congruence|].
      rewrite (children_replaceChild p _ r i) by auto.
      apply lookup_lt_Some in Hr. now rewrite decide_True by lia.
  - split; [now apply wellFormed_appendChild|].
    split; [apply persists_insert_fresh|].
    right. exists (freshRef p). split; [apply freshRef_None|].
    split; [simpl; apply lookup_insert_eq|].
    split; [intros r0; discriminate|].
    rewrite children_appendChild by auto.
    apply lookup_ge_None in Hr. now rewrite decide_False by lia.
Qed.

Lemma updateTextAt_length i line p :
  wellFormed p -> i <= length (children p) ->
  length (children (updateTextAt doHighlight i line p))
  = Nat.max (length (children p)) (S i).
Proof.
  intros Hwf Hi.
  destruct (updateTextAt_spec i line p Hwf Hi) as (_ & _ & [(r & Hr & _ & ->)|(r' & _ & _ & _ & ->)]).
  - apply lookup_lt_Some in Hr. lia.
  - destruct (decide (i < length (children p))).
    + rewrite length_insert. lia.
    + rewrite length_app. simpl. lia.
Qed.

Lemma updateTextAt_frame i line p j :
  wellFormed p -> i <= length (children p) -> j <> i ->
  children (updateTextAt doHighlight i line p) !! j = children p !! j.
Proof.
  intros Hwf Hi Hj.
  destruct (updateTextAt_spec i line p Hwf Hi) as (_ & _ & [(r & Hr & _ & ->)|(r' & _ & _ & _ & ->)]).
  - reflexivity.
  - destruct (decide (i < length (children p))).
    + now rewrite list_lookup_insert_ne.
    + destruct (decide (j < length (children p))).
      * now rewrite lookup_app_l.
      * rewrite !lookup_ge_None_2; [reflexivity | lia | rewrite length_app; simpl; lia].
Qed.

Lemma updateTextFrom_spec textLines : forall i p,
  wellFormed p -> i <= length (children p) ->
  let p' := updateTextFrom doHighlight i textLines p in
  wellFormed p' /\ persists p p' /\
  length (children p') = Nat.max (length (children p)) (i + length textLines) /\
  (forall j, j < i \/ i + length textLines <= j -> children p' !! j = children p !! j) /\
  (forall k line, textLines !! k = Some line ->
     slotSynced p p' (i + k) line (createLine doHighlight line)).
Proof.
  induction textLines as [|line rest IH]; intros i p Hwf Hi; simpl.
  - split; [assumption|]. split; [apply persists_refl|].
    split; [lia|]. split; [reflexivity|]. intros k l Hk. discriminate.
  - pose proof (updateTextAt_spec i line p Hwf Hi) as (Hwf1 & Hp1 & Hslot).
    pose proof (updateTextAt_length i line p Hwf Hi) as Hlen1.
    pose proof (fun j => updateTextAt_frame i line p j Hwf Hi) as Hframe1.
    set (p1 := updateTextAt doHighlight i line p) in *.
    assert (S i <= length (children p1)) as Hi1 by lia.
    destruct (IH (S i) p1 Hwf1 Hi1) as (Hwf' & Hp' & Hlen' & Hframe' & Hslots').
    set (p' := updateTextFrom doHighlight (S i) rest p1) in *.
    split; [assumption|]. split; [eapply persists_trans; eauto|].
    split; [lia|]. split.
    + intros j Hj. rewrite Hframe' by lia. apply Hframe1. lia.
    + intros [|k] l Hk; simpl in Hk.
      * injection Hk as ->. rewrite Nat.add_0_r.
        assert (children p' !! i = children p1 !! i) as Hsame by (apply Hframe'; lia).
        destruct Hslot as [(r & Hr & Htext & Heq)|(r' & Hnone & Hnew & Hdiff & Hch)].
        -- left. exists r. rewrite Hsame, Heq. repeat split; auto.
           assert (is_Some (heap p !! r)) as [n Hn].
           { apply children_live. eapply list_elem_of_lookup_2; eauto. }
           rewrite Hn. apply Hp'. now rewrite Heq.
        -- right. split; [assumption|]. exists r'.
           split; [|split; [assumption | now apply Hp']].
           rewrite Hsame, Hch. destruct (decide (i < length (children p))).
           ++ now apply list_lookup_insert_eq.
           ++ rewrite lookup_app_r by lia.
              replace (i - length (children p)) with 0 by lia. reflexivity.
      * specialize (Hslots' k l Hk).
        replace (i + S k) with (S i + k) by lia.
        assert (children p1 !! (S i + k) = children p !! (S i + k)) as Hsame
            by (apply Hframe1; lia).
        destruct Hslots' as [(r & Hr & Htext & Hr' & Hheap)|(Hdiff & r' & Hr' & Hnone & Hnew)].
        -- rewrite Hsame in Hr.
           assert (is_Some (heap p !! r)) as Hlive.
           { apply children_live. eapply list_elem_of_lookup_2; eauto. }
           left. exists r. repeat split; auto.
           ++ now rewrite <- (textOf_persists p p1).
           ++ destruct Hlive as [n Hn]. rewrite Hn. apply Hp', Hp1, Hn.
        -- right. split.
           ++ intros r Hr.
              rewrite <- (textOf_persists p p1); [|assumption|].
              ** apply Hdiff. now rewrite Hsame.
              ** apply children_live. eapply list_elem_of_lookup_2; eauto.
           ++ exists r'. repeat split; auto. eapply persists_None; eauto.
Qed.

(** ** The [while] loop of [#updateText] *)

Lemma trimFrom_spec turns : forall n p,
  wellFormed p -> length (childNodes p) <= turns ->
  let p' := trimFrom turns n p in
  wellFormed p' /\ heap p' = heap p /\ children p' = take n (children p).
Proof.
  induction turns as [|turns IH]; intros n p Hwf Hturns; simpl.
  - split; [assumption|]. split; [reflexivity|].
    unfold children. destruct (childNodes p); [|simpl in Hturns; lia].
    simpl. now destruct n.
  - destruct (Nat.ltb n (length (children p))) eqn:Hn.
    + apply Nat.ltb_lt in Hn.
      assert (length (childNodes (removeLastChild p)) <= turns) as Hshort.
      { simpl. destruct (childNodes p) as [|x l] eqn:E; [simpl; lia|].
        assert (x :: l <> []) as Hne by discriminate.
        destruct (exists_last Hne) as (front & y & Hfront).
        rewrite Hfront, removelast_last. rewrite Hfront, length_app in Hturns.
        simpl in Hturns. lia. }
      destruct (IH n _ (wellFormed_removeLastChild p Hwf) Hshort) as (Hwf' & Hheap & Hch).
      split; [assumption|]. split; [now rewrite Hheap|].
      rewrite Hch. unfold children, removeLastChild. simpl.
      destruct (filter_removelast (isElementRef (heap p)) (childNodes p)) as [->| ->].
      * reflexivity.
      * now apply take_removelast.
    + apply Nat.ltb_ge in Hn. split; [assumption|]. split; [reflexivity|].
      now rewrite take_ge.
Qed.

Lemma trim_spec n p :
  wellFormed p ->
  wellFormed (trim n p) /\ heap (trim n p) = heap p /\
  children (trim n p) = take n (children p).
Proof. intros Hwf. now apply trimFrom_spec. Qed.

(** ** [#updateText] *)

Lemma updateText_spec text p :
  wellFormed p ->
  let p' := updateText doHighlight text p in
  wellFormed p' /\ persists p p' /\
  length (children p') = length (split text) /\
  (forall k line, split text !! k = Some line ->
     slotSynced p p' k line (createLine doHighlight line)).
Proof.
  intros Hwf. unfold updateText.
  destruct (updateTextFrom_spec (split text) 0 p Hwf ltac:(lia))
    as (Hwf2 & Hp2 & Hlen2 & _ & Hslots).
  set (p2 := updateTextFrom doHighlight 0 (split text) p) in *.
  destruct (trim_spec (length (split text)) p2 Hwf2) as (Hwf' & Hheap & Hch).
  simpl. split; [assumption|]. split.
  { intros r n Hr. rewrite Hheap. now apply Hp2. }
  split.
  { rewrite Hch, length_take, Hlen2. simpl. lia. }
  intros k line Hk. specialize (Hslots k line Hk). simpl in Hslots.
  assert (children (trim (length (split text)) p2) !! k = children p2 !! k) as Hsame.
  { rewrite Hch. apply lookup_take_lt. eapply lookup_lt_Some; eauto. }
  destruct Hslots as [(r & Hr & Htext & Hr' & Hkeep)|(Hdiff & r' & Hr' & Hnone & Hnew)].
  - left. exists r. rewrite Hsame, Hheap. auto.
  - right. split; [assumption|]. exists r'. rewrite Hsame, Hheap. auto.
Qed.

Lemma textContent_createLine line :
  tokenizerRoundTrip doHighlight -> textContent (createLine doHighlight line) = line.
Proof.
  intros Hrt. unfold createLine. simpl.
  destruct (String.eqb line "") eqn:E.
  - apply String.eqb_eq in E. now subst.
  - apply Hrt.
Qed.

(** The lines that [#updateText] leaves read as the pieces of the text. *)
Lemma updateText_texts text p :
  wellFormed p -> tokenizerRoundTrip doHighlight ->
  let p' := updateText doHighlight text p in
  map (textOf p') (children p') = split text.
Proof.
  intros Hwf Hrt p'.
  destruct (updateText_spec text p Hwf) as (Hwf' & Hp' & Hlen & Hslots).
  fold p' in Hwf', Hp', Hlen, Hslots.
  apply list_eq. intros k. rewrite list_lookup_fmap.
  destruct (split text !! k) as [line|] eqn:Hk.
  - destruct (Hslots k line Hk) as [(r & Hr & Htext & -> & Hkeep)|(_ & r' & -> & _ & Hnew)];
      simpl; f_equal.
    + rewrite <- Htext. unfold textOf. now rewrite Hkeep.
    + unfold textOf. rewrite Hnew. now apply textContent_createLine.
  - apply lookup_ge_None in Hk. rewrite lookup_ge_None_2; [reflexivity | lia].
Qed.

Lemma getText_updateText text p :
  wellFormed p -> tokenizerRoundTrip doHighlight ->
  getText (updateText doHighlight text p) = text.
Proof.
  intros Hwf Hrt. unfold getText.
  rewrite updateText_texts by assumption. apply join_split.
Qed.

(** ** [setText] *)

Lemma setCursorPos_completes p w pos :
  wellFormed p -> children p <> [] ->
  exists caret, setCursorPos p w pos = Normal caret.
Proof.
  intros Hwf Hne. unfold setCursorPos.
  destruct pos as [pos|]; [|eauto].
  destruct (getSelection w); [|eauto].
  assert (0 < length (children p)) as Hlen.
  { destruct (children p); [congruence | simpl; lia]. }
  assert (0 <= validLine p pos < Z.of_nat (length (children p)))%Z as Hv
    by (unfold validLine; lia).
  destruct (validLine p pos <? 0)%Z eqn:E; [apply Z.ltb_lt in E; lia|].
  destruct (children p !! Z.to_nat (validLine p pos)) as [r|] eqn:Hr.
  - destruct (children_live p r) as [n Hn]; [eapply list_elem_of_lookup_2; eauto|].
    rewrite Hn. eauto.
  - apply lookup_ge_None in Hr. lia.
Qed.

Lemma children_updateText_nonempty text p :
  wellFormed p -> children (updateText doHighlight text p) <> [].
Proof.
  intros Hwf Hnil.
  destruct (updateText_spec text p Hwf) as (_ & _ & Hlen & _).
  rewrite Hnil in Hlen. pose proof (split_length text). simpl in Hlen. lia.
Qed.

Lemma setText_page text w p :
  fst (setText doHighlight text w p) = p
  \/ fst (setText doHighlight text w p) = updateText doHighlight text p.
Proof.
  unfold setText. destruct (getCursorPos p w); [right | left]; reflexivity.
Qed.

Lemma afterCalls_invariant calls :
  wellFormed (afterCalls doHighlight calls)
  /\ 1 <= length (children (afterCalls doHighlight calls)).
Proof.
  induction calls as [|[text w] calls IH] using rev_ind.
  - unfold afterCalls. simpl. rewrite children_construct.
    split; [apply wellFormed_construct | simpl; lia].
  - unfold afterCalls in *. rewrite fold_left_app. simpl.
    destruct IH as [Hwf Hlen].
    destruct (setText_page text w
                (fold_left (fun p call => fst (setText doHighlight (fst call) (snd call) p))
                           calls construct)) as [-> | ->].
    + split; assumption.
    + destruct (updateText_spec text _ Hwf) as (Hwf' & _ & Hlen' & _).
      split; [assumption|]. rewrite Hlen'. apply split_length.
Qed.

(** X16. Round trip of a call that returns: for line texts [L] free of the
    separator and a tokenizer that keeps the text, whenever
    [setText(join(L, "\n"))] has returned, [getText()] returns
    [join(L, "\n")] and the rendered lines read [L] (when there is one at
    least).  [setText] returns in every window but one whose selection holds
    no range: there the caret snapshot throws before any line is touched. *)
Theorem setText_getText_roundtrip (L : list string) (p : Page) (w : Window) :
  Forall sepFree L ->
  tokenizerRoundTrip doHighlight ->
  wellFormed p ->
  let text := join L in
  let p' := fst (setText doHighlight text w p) in
  match snd (setText doHighlight text w p) with
  | Normal _ => getText p' = text /\ (L <> [] -> map (textOf p') (children p') = L)
  | Throw _ => getSelection w = Some [] /\ p' = p
  end
  /\ (getSelection w <> Some [] ->
      exists restored, snd (setText doHighlight text w p) = Normal restored)
  /\ getText (updateText doHighlight text p) = text.
Proof.
  intros Hfree Hrt Hwf text p'.
  destruct (updateText_spec text p Hwf) as (Hwf' & _).
  assert (forall pos,
            getCursorPos p w = Normal pos ->
            exists restored,
              setText doHighlight text w p
              = (updateText doHighlight text p, Normal restored)) as Hruns.
  { intros pos Hpos.
    destruct (setCursorPos_completes (updateText doHighlight text p) w pos Hwf')
      as [restored Hrestored]; [now apply children_updateText_nonempty|].
    exists restored. unfold setText. now rewrite Hpos, Hrestored. }
  assert (getText (updateText doHighlight text p) = text) as Hround
      by now apply getText_updateText.
  split; [|split; [|exact Hround]].
  - subst p'. destruct (getCursorPos p w) as [pos|e] eqn:Hpos.
    + destruct (Hruns pos eq_refl) as [restored ->]. simpl.
      split; [exact Hround|]. intros Hne.
      rewrite updateText_texts by assumption. now apply split_join.
    + unfold setText. rewrite Hpos. simpl. split; [|reflexivity].
      unfold getCursorPos in Hpos.
      destruct (getSelection w) as [[|range ranges]|]; try discriminate; [reflexivity|].
      destruct (getLineElement p w (startContainer range)); discriminate.
  - intros Hsel.
    assert (exists pos, getCursorPos p w = Normal pos) as [pos Hpos].
    { unfold getCursorPos. destruct (getSelection w) as [[|range ranges]|]; eauto.
      - congruence.
      - destruct (getLineElement p w (startContainer range)); eauto. }
    destruct (Hruns pos Hpos) as [restored ->]. simpl. eauto.
Qed.

(** C8. [#updateText] puts a freshly made line node, by replacement or by
    appending, exactly at the indices whose rendered line does not read the
    desired text; a line that already reads it stays the same object with
    the same subtree; and the editor ends with as many rendered lines as
    there are desired texts, the trailing ones being removed. *)
Theorem updateText_replaces_exactly (text : string) (p : Page) :
  wellFormed p ->
  let desired := split text in
  let p' := updateText doHighlight text p in
  length (children p') = length desired
  /\ forall i line, desired !! i = Some line ->
       (exists r, children p !! i = Some r /\ textOf p r = line /\
                  children p' !! i = Some r /\ heap p' !! r = heap p !! r)
       \/ ((forall r, children p !! i = Some r -> textOf p r <> line) /\
           exists r', children p' !! i = Some r' /\ heap p !! r' = None /\
                      heap p' !! r' = Some (createLine doHighlight line)).
Proof.
  intros Hwf desired p'.
  destruct (updateText_spec text p Hwf) as (_ & _ & Hlen & Hslots).
  split; [exact Hlen | exact Hslots].
Qed.

(** C10. After construction and after any series of [setText] calls, with
    any texts and whatever the selection is at each call, the editor has at
    least one rendered line, as a split text has at least one piece; and
    [getText()] of a freshly constructed editor is the empty string. *)
Theorem editor_never_empty (calls : list (string * Window)) (text : string) :
  1 <= length (children (afterCalls doHighlight calls))
  /\ 1 <= length (split text)
  /\ length (children construct) = 1
  /\ getText construct = "".
Proof.
  split; [apply afterCalls_invariant|].
  split; [apply split_length|].
  split; [now rewrite children_construct|].
  unfold getText. rewrite children_construct. vm_compute. reflexivity.
Qed.

(** ** [walkNode] as a scan of the leaves *)

Lemma Node_induction (P : Node -> Prop) :
  (forall data, P (Text data)) ->
  (forall tag classes cs, Forall P cs -> P (Element tag classes cs)) ->
  forall n, P n.
Proof.
  intros HText HElement. fix IH 1. intros [data|tag classes cs].
  - apply HText.
  - apply HElement. induction cs as [|c cs IHcs]; constructor.
    + apply IH.
    + exact IHcs.
Qed.

Lemma string_length_append (s1 s2 : string) :
  String.length (s1 ++ s2)%string = String.length s1 + String.length s2.
Proof. induction s1 as [|c s1 IH]; simpl; [reflexivity | now rewrite IH]. Qed.

Lemma string_append_nil (s : string) : (s ++ "")%string = s.
Proof.
  induction s as [|c s IH]; [reflexivity|].
  change (String c (s ++ "")%string = String c s). now rewrite IH.
Qed.

Lemma string_length_zero (s : string) : String.length s = 0 -> s = "".
Proof. destruct s; [reflexivity | discriminate]. Qed.

Lemma string_append_assoc (s1 s2 s3 : string) :
  ((s1 ++ s2) ++ s3)%string = (s1 ++ (s2 ++ s3))%string.
Proof.
  induction s1 as [|c s1 IH]; [reflexivity|].
  change (String c ((s1 ++ s2) ++ s3)%string = String c (s1 ++ (s2 ++ s3))%string).
  now rewrite IH.
Qed.

Lemma concatText_app a b : concatText (a ++ b) = (concatText a ++ concatText b)%string.
Proof.
  induction a as [|x a IH]; [reflexivity|].
  change (String.append x (concatText (a ++ b))
          = String.append (String.append x (concatText a)) (concatText b)).
  now rewrite IH, string_append_assoc.
Qed.

Lemma totalLength_app a b : totalLength (a ++ b) = totalLength a + totalLength b.
Proof. unfold totalLength. now rewrite map_app, list_sum_app. Qed.

Lemma totalLength_concat leaves :
  totalLength leaves = String.length (concatText (map leafText leaves)).
Proof.
  induction leaves as [|l rest IH]; [reflexivity|].
  cbn [map concatText fold_right]. rewrite string_length_append.
  unfold totalLength in *. simpl. now rewrite IH.
Qed.

Lemma leafText_leavesOf node : forall root path parentNext selfNext,
  concatText (map leafText (leavesOf root path parentNext selfNext node))
  = textContent node.
Proof.
  induction node as [data|tag classes cs IH] using Node_induction;
    intros root path parentNext selfNext.
  - change (String.append data "" = data). apply string_append_nil.
  - cbn [leavesOf textContent]. generalize 0 as k. induction IH as [|c cs Hc _ IHcs]; intros k; simpl; [reflexivity|].
    rewrite map_app, concatText_app, Hc, IHcs. reflexivity.
Qed.

Lemma totalLength_leavesOf root path parentNext selfNext node :
  totalLength (leavesOf root path parentNext selfNext node)
  = String.length (textContent node).
Proof. now rewrite totalLength_concat, leafText_leavesOf. Qed.

Lemma scanLeaves_found column leaves st :
  found st = true -> scanLeaves column leaves st = st.
Proof. intros H. destruct leaves; simpl; [reflexivity | now rewrite H]. Qed.

Lemma scanLeaves_app column a b st :
  scanLeaves column (a ++ b) st = scanLeaves column b (scanLeaves column a st).
Proof.
  revert st. induction a as [|l a IH]; intros st; simpl; [reflexivity|].
  destruct (found st) eqn:E; [now rewrite scanLeaves_found | apply IH].
Qed.

Lemma forChildren_scan column walk leaves cs :
  Forall (fun c => forall k next st, found st = false ->
                   walk k next c st = scanLeaves column (leaves k next c) st) cs ->
  forall k st, forChildren walk k cs st
               = scanLeaves column (flatChildren leaves k cs) st.
Proof.
  induction 1 as [|c cs Hc _ IH]; intros k st; simpl; [reflexivity|].
  rewrite scanLeaves_app.
  destruct (found st) eqn:E.
  - rewrite (scanLeaves_found column (leaves k (head cs) c) st E).
    now rewrite scanLeaves_found.
  - rewrite IH, Hc by assumption. reflexivity.
Qed.

Lemma walkNode_scan column node : forall root path parentNext selfNext st,
  found st = false ->
  walkNode column root path parentNext selfNext node st
  = scanLeaves column (leavesOf root path parentNext selfNext node) st.
Proof.
  induction node as [data|tag classes cs IH] using Node_induction;
    intros root path parentNext selfNext st Hst.
  - change (walkNode column root path parentNext selfNext (Text data) st)
      with (visitLeaf column (mkLeaf (RNode root path) parentNext data) st).
    cbn [leavesOf scanLeaves]. now rewrite Hst.
  - cbn [walkNode leavesOf]. apply forChildren_scan.
    eapply Forall_impl; [exact IH|]. intros c Hc k next st' Hst'. now apply Hc.
Qed.

(** No leaf reaches the column: every leaf is looked at and the range is
    left as it was. *)
Lemma scanLeaves_miss column leaves : forall st,
  found st = false -> acc st + totalLength leaves < column ->
  scanLeaves column leaves st
  = mkWalk (acc st + totalLength leaves) false (caret st) (visited st + length leaves).
Proof.
  induction leaves as [|l rest IH]; intros st Hst Hlt.
  - simpl. unfold totalLength. simpl. rewrite !Nat.add_0_r.
    destruct st; simpl in *; now subst.
  - change (totalLength (l :: rest))
      with (String.length (leafText l) + totalLength rest) in *.
    simpl. rewrite Hst. unfold visitLeaf.
    destruct (Nat.leb column (acc st + String.length (leafText l))) eqn:E;
      [apply Nat.leb_le in E; lia|].
    rewrite IH; simpl; [f_equal; lia | assumption | lia].
Qed.

(** Some leaf reaches the column: the first such leaf is chosen. *)
Lemma scanLeaves_hit column leaves : forall st,
  found st = false -> leaves <> [] -> column <= acc st + totalLength leaves ->
  exists before l after,
    leaves = before ++ l :: after
    /\ (before = [] \/ acc st + totalLength before < column)
    /\ column <= acc st + totalLength before + String.length (leafText l)
    /\ scanLeaves column leaves st
       = mkWalk (acc st + totalLength before) true
                (moveTo column (leafRef l) (leafParentNext l) (acc st + totalLength before))
                (visited st + S (length before)).
Proof.
  induction leaves as [|l rest IH]; intros st Hst Hne Hle; [congruence|].
  change (totalLength (l :: rest))
    with (String.length (leafText l) + totalLength rest) in Hle.
  simpl. rewrite Hst. unfold visitLeaf.
  destruct (Nat.leb column (acc st + String.length (leafText l))) eqn:E.
  - apply Nat.leb_le in E. exists [], l, rest.
    split; [reflexivity|]. split; [now left|].
    change (totalLength []) with 0. rewrite !Nat.add_0_r.
    split; [assumption|]. rewrite scanLeaves_found by reflexivity.
    f_equal. simpl. lia.
  - apply Nat.leb_gt in E.
    assert (rest <> []) as Hrest.
    { intros ->. change (totalLength []) with 0 in Hle. lia. }
    destruct (IH (mkWalk (acc st + String.length (leafText l)) (found st) (caret st)
                         (S (visited st))) Hst Hrest ltac:(simpl; lia))
      as (before & l' & after & -> & Hbefore & Hreach & Hscan).
    simpl in *. exists (l :: before), l', after.
    change (totalLength (l :: before))
      with (String.length (leafText l) + totalLength before).
    split; [reflexivity|]. split; [right; destruct Hbefore as [->|]; [change (totalLength []) with 0|]; lia|].
    split; [lia|]. rewrite Hscan. simpl. f_equal; [lia | f_equal; lia | lia].
Qed.

(** ** [moveCursorToColumn] and [#setCursorPos] *)

Lemma moveCursorToColumn_scan p r element column range :
  0 < String.length (textContent element) ->
  moveCursorToColumn p r element column range
  = scanLeaves column (lineLeaves p r element) (mkWalk 0 false range 0).
Proof.
  intros Hlen. unfold moveCursorToColumn, lineLeaves.
  destruct (Nat.eqb (String.length (textContent element)) 0) eqn:E;
    [apply Nat.eqb_eq in E; lia|].
  now apply walkNode_scan.
Qed.

Lemma validLine_range p pos :
  children p <> [] ->
  (0 <= validLine p pos <= Z.of_nat (length (children p)) - 1)%Z.
Proof.
  intros Hne. assert (0 < length (children p)).
  { destruct (children p); [congruence | simpl; lia]. }
  unfold validLine. lia.
Qed.

Lemma setCursorPos_line p w pos :
  wellFormed p -> children p <> [] -> is_Some (getSelection w) ->
  exists r element,
    children p !! Z.to_nat (validLine p pos) = Some r
    /\ heap p !! r = Some element
    /\ setCursorPos p w (Some pos)
       = Normal (Some (caret (moveCursorToColumn p r element (column pos) createRange))).
Proof.
  intros Hwf Hne [sel Hsel]. pose proof (validLine_range p pos Hne) as Hv.
  unfold setCursorPos. rewrite Hsel.
  destruct (validLine p pos <? 0)%Z eqn:E; [apply Z.ltb_lt in E; lia|].
  destruct (children p !! Z.to_nat (validLine p pos)) as [r|] eqn:Hr.
  - destruct (children_live p r) as [n Hn]; [eapply list_elem_of_lookup_2; eauto|].
    exists r, n. now rewrite Hn.
  - apply lookup_ge_None in Hr. lia.
Qed.

(** C9. Empty-line fast path: for a line whose text content has length
    zero, [moveCursorToColumn] sets the range at offset 0 of the line node
    itself, whatever the column, and looks at no leaf; so does the caret
    restore on such a line. *)
Theorem empty_line_fast_path (p : Page) (w : Window) (pos : CursorPos)
    (r : nat) (element : Node) :
  is_Some (getSelection w) ->
  children p !! Z.to_nat (validLine p pos) = Some r ->
  heap p !! r = Some element ->
  String.length (textContent element) = 0 ->
  (forall column range,
     moveCursorToColumn p r element column range
     = mkWalk 0 false (mkBoundary (RNode r []) 0) 0)
  /\ setCursorPos p w (Some pos) = Normal (Some (mkBoundary (RNode r []) 0)).
Proof.
  intros [sel Hsel] Hr Hel Hlen.
  assert (forall column range,
            moveCursorToColumn p r element column range
            = mkWalk 0 false (mkBoundary (RNode r []) 0) 0) as Hfast.
  { intros column range. unfold moveCursorToColumn. now rewrite Hlen. }
  split; [exact Hfast|].
  unfold setCursorPos. rewrite Hsel.
  assert (0 < length (children p)) as Hpos.
  { apply lookup_lt_Some in Hr. lia. }
  destruct (validLine p pos <? 0)%Z eqn:E.
  - apply Z.ltb_lt in E. unfold validLine in E. lia.
  - rewrite Hr, Hel, Hfast. reflexivity.
Qed.

Lemma moveCursorToColumn_miss p r element column range :
  0 < String.length (textContent element) ->
  String.length (textContent element) < column ->
  moveCursorToColumn p r element column range
  = mkWalk (String.length (textContent element)) false range
           (length (lineLeaves p r element)).
Proof.
  intros Hlen Hcol. rewrite moveCursorToColumn_scan by assumption.
  rewrite scanLeaves_miss; simpl.
  - unfold lineLeaves. now rewrite totalLength_leavesOf.
  - reflexivity.
  - unfold lineLeaves. rewrite totalLength_leavesOf. lia.
Qed.

(** C3, as the code has it. For a line with text and a column beyond the
    length of that text, [moveCursorToColumn] looks at every leaf, chooses
    none and writes no position: the range is left as it was passed in. *)
Theorem column_beyond_line_sets_nothing (p : Page) (r : nat) (element : Node)
    (column : nat) (range : Boundary) :
  0 < String.length (textContent element) ->
  String.length (textContent element) < column ->
  moveCursorToColumn p r element column range
  = mkWalk (String.length (textContent element)) false range
           (length (lineLeaves p r element)).
Proof. apply moveCursorToColumn_miss. Qed.

Lemma scan_skip_children column (leaves : nat -> option Node -> Node -> list Leaf) :
  (forall k next c, totalLength (leaves k next c) = String.length (textContent c)) ->
  forall cs rest k st,
    found st = false ->
    acc st + String.length (concatText (map textContent cs)) < column ->
    exists v,
      scanLeaves column (flatChildren leaves k (cs ++ rest)) st
      = scanLeaves column (flatChildren leaves (k + length cs) rest)
          (mkWalk (acc st + String.length (concatText (map textContent cs)))
                  false (caret st) v).
Proof.
  intros Hlen. induction cs as [|c cs IH]; intros rest k st Hst Hlt.
  - exists (visited st). simpl. rewrite !Nat.add_0_r.
    destruct st; simpl in *; now subst.
  - change (concatText (map textContent (c :: cs)))
      with (String.append (textContent c) (concatText (map textContent cs))) in *.
    rewrite string_length_append in Hlt. rewrite string_length_append.
    change (flatChildren leaves k ((c :: cs) ++ rest))
      with (leaves k (head (cs ++ rest)) c ++ flatChildren leaves (S k) (cs ++ rest)).
    rewrite scanLeaves_app.
    rewrite (scanLeaves_miss column (leaves k (head (cs ++ rest)) c) st);
      [|assumption | rewrite Hlen; lia].
    rewrite Hlen.
    destruct (IH rest (S k)
                (mkWalk (acc st + String.length (textContent c)) false (caret st)
                        (visited st + length (leaves k (head (cs ++ rest)) c)))
                eq_refl ltac:(simpl; lia)) as [v Hv].
    exists v. rewrite Hv. cbn [acc caret].
    replace (k + length (c :: cs)) with (S k + length cs) by (simpl; lia).
    now rewrite Nat.add_assoc.
Qed.

Lemma moveCursorToColumn_block_anchor p r tag classes before blockTag blockClasses
    text anchor column range :
  shouldSetCursor anchor = true ->
  0 < String.length text ->
  before = [] \/ String.length (concatText (map textContent before)) < column ->
  column <= String.length (concatText (map textContent before)) + String.length text ->
  caret (moveCursorToColumn p r
           (Element tag classes
              (before ++ [Element blockTag blockClasses [Text text]; anchor]))
           column range)
  = mkBoundary (RNode r [S (length before)]) 0.
Proof.
  intros Hanchor Htext Hbefore Hcol.
  rewrite moveCursorToColumn_scan.
  2:{ cbn [textContent]. rewrite map_app, concatText_app, string_length_append.
      cbn [map concatText fold_right textContent].
      rewrite !string_length_append. lia. }
  unfold lineLeaves. cbn [leavesOf].
  set (leaves := fun k next child =>
                   leavesOf r ([] ++ [k]) (nextSibling p r)
                     ((fun n => (RNode r ([] ++ [S k]), n)) <$> next) child).
  assert (exists v,
            scanLeaves column (flatChildren leaves 0
              (before ++ [Element blockTag blockClasses [Text text]; anchor]))
              (mkWalk 0 false range 0)
            = scanLeaves column (flatChildren leaves (length before)
                [Element blockTag blockClasses [Text text]; anchor])
                (mkWalk (String.length (concatText (map textContent before)))
                        false range v)) as [v ->].
  { destruct Hbefore as [->|Hlt].
    - exists 0. reflexivity.
    - destruct (scan_skip_children column leaves
                  (fun k next c => totalLength_leavesOf _ _ _ _ c)
                  before [Element blockTag blockClasses [Text text]; anchor]
                  0 (mkWalk 0 false range 0) eq_refl ltac:(simpl; lia)) as [v Hv].
      exists v. exact Hv. }
  subst leaves. cbn [flatChildren leavesOf head fmap option_fmap option_map app].
  cbn [scanLeaves found]. unfold visitLeaf. cbn [acc leafText].
  destruct (Nat.leb column _) eqn:E; [|apply Nat.leb_gt in E; lia].
  cbn [found]. rewrite scanLeaves_found by reflexivity.
  cbn [caret leafRef leafParentNext]. unfold moveTo.
  now rewrite Hanchor.
Qed.

(** C2, as the code has it. On a line whose last tagged child is a
    fixed-width block token followed by the anchor marker,
    [moveCursorToColumn] puts the caret at offset 0 of the anchor whenever
    the block's leaf is the first leaf that reaches the column: for every
    such column, inside the leaf as well as at its end.  For the line that
    [updateLine] renders for the text "# ", when the tokenizer yields the
    [H1_HASH] span for it, column 2 resolves to the anchor at offset 0. *)
Theorem anchor_taken_at_block_leaf (p : Page) (r : nat) (tag : string)
    (classes : list string) (before : list Node) (blockTag : string)
    (blockClasses : list string) (text : string) (anchor : Node)
    (column : nat) (range : Boundary) :
  let block := Element blockTag blockClasses [Text text] in
  let skipped := String.length (concatText (map textContent before)) in
  isFixedWidthBlock block = true ->
  shouldSetCursor anchor = true ->
  0 < String.length text ->
  before = [] \/ skipped < column ->
  column <= skipped + String.length text ->
  caret (moveCursorToColumn p r (Element tag classes (before ++ [block; anchor]))
           column range)
  = mkBoundary (RNode r [S (length before)]) 0
  /\ (doHighlight "# " = [Element "span" H1_HASH [Text "# "]] ->
      caret (moveCursorToColumn p r (updateLine doHighlight "# ") 2 range)
      = mkBoundary (RNode r [1]) 0).
Proof.
  intros block skipped _ Hanchor Htext Hbefore Hcol.
  split.
  - now apply moveCursorToColumn_block_anchor.
  - intros Hdo.
    assert (updateLine doHighlight "# "
            = Element "div" ["mj-line"]
                ([] ++ [Element "span" H1_HASH [Text "# "];
                        Element "span" ["mj-cursor"] []])) as ->.
    { unfold updateLine, createLine. simpl. rewrite Hdo. reflexivity. }
    apply moveCursorToColumn_block_anchor; simpl; auto; lia.
Qed.

(** C5, as the code has it. On caret restore the line index of the
    snapshot is clamped into [0, lineCount-1] (a snapshot of line 5 goes to
    line 1 of a two-line document); the column is not clamped.  In the
    clamped line the caret goes to offset 0 of the line node when the line
    is empty, and to the position that [moveTo] computes at the first leaf
    reaching the column when the column is at most the length of the line's
    text; for a column beyond the text of a non-empty line no position of that
    line is set and the restored range is the one [document.createRange()]
    made, at the start of the document. *)
Theorem caret_restore_clamps_line_only (p : Page) (w : Window) (pos : CursorPos) :
  wellFormed p ->
  children p <> [] ->
  is_Some (getSelection w) ->
  exists r element b,
    (0 <= validLine p pos <= Z.of_nat (length (children p)) - 1)%Z
    /\ ((0 <= line pos <= Z.of_nat (length (children p)) - 1)%Z ->
        validLine p pos = line pos)
    /\ (length (children p) = 2 -> line pos = 5%Z -> validLine p pos = 1%Z)
    /\ children p !! Z.to_nat (validLine p pos) = Some r
    /\ heap p !! r = Some element
    /\ setCursorPos p w (Some pos) = Normal (Some b)
    /\ (String.length (textContent element) = 0 -> b = mkBoundary (RNode r []) 0)
    /\ (0 < String.length (textContent element) < column pos -> b = createRange)
    /\ (0 < String.length (textContent element) ->
        column pos <= String.length (textContent element) ->
        exists before l after,
          lineLeaves p r element = before ++ l :: after
          /\ totalLength before <= column pos
             <= totalLength before + String.length (leafText l)
          /\ b = moveTo (column pos) (leafRef l) (leafParentNext l)
                        (totalLength before)).
Proof.
  intros Hwf Hne Hsel.
  destruct (setCursorPos_line p w pos Hwf Hne Hsel) as (r & element & Hr & Hel & Hset).
  exists r, element,
    (caret (moveCursorToColumn p r element (column pos) createRange)).
  split; [now apply validLine_range|].
  split; [unfold validLine; lia|].
  split; [unfold validLine; lia|].
  split; [assumption|]. split; [assumption|]. split; [assumption|].
  split; [|split].
  - intros Hlen. unfold moveCursorToColumn. now rewrite Hlen.
  - intros [Hlen Hcol].
    now rewrite moveCursorToColumn_miss.
  - intros Hlen Hcol. rewrite moveCursorToColumn_scan by assumption.
    assert (totalLength (lineLeaves p r element)
            = String.length (textContent element)) as Htotal
        by apply totalLength_leavesOf.
    destruct (scanLeaves_hit (column pos) (lineLeaves p r element)
                (mkWalk 0 false createRange 0) eq_refl) as
        (before & l & after & Hsplit & Hbefore & Hreach & Hscan).
    + intros Hnil. rewrite Hnil in Htotal. change (totalLength []) with 0 in Htotal. lia.
    + simpl. lia.
    + exists before, l, after. simpl in *. split; [assumption|].
      assert (totalLength before <= column pos) as Hle.
      { destruct Hbefore as [Heq|Hlt]; [|lia].
        rewrite Heq. unfold totalLength. simpl. lia. }
      split; [lia|]. now rewrite Hscan.
Qed.

(** ** The reconciliation pass *)

Lemma parentElement_childNodes p q w dirty :
  childNodes p = childNodes q -> parentElement p w dirty = parentElement q w dirty.
Proof.
  intros H. destruct dirty as [| |k|root path|name up]; simpl; try reflexivity.
  unfold attached. now rewrite H.
Qed.

Lemma parentElement_editor_child p w dirty :
  parentElement p w dirty = Some REditor ->
  exists r, dirty = RNode r [] /\ attached p r = true.
Proof.
  destruct dirty as [| |k|root path|name up]; simpl.
  - discriminate.
  - destruct (editorAncestors w); discriminate.
  - destruct (Nat.ltb (S k) (length (editorAncestors w))); discriminate.
  - destruct path as [|i path].
    + destruct (attached p root) eqn:E; [|discriminate]. intros _. eauto.
    + discriminate.
  - destruct up; discriminate.
Qed.

Lemma patchLine_spec w p out dirty :
  let p1 := fst (patchLine doHighlight morphdom w (p, out) dirty) in
  let out1 := snd (patchLine doHighlight morphdom w (p, out) dirty) in
  childNodes p1 = childNodes p
  /\ (forall r, dirty <> RNode r [] \/ attached p r = false ->
                heap p1 !! r = heap p !! r)
  /\ (forall r old, dirty = RNode r [] -> attached p r = true ->
                    heap p !! r = Some old ->
                    heap p1 !! r
                    = Some (morphdom old (updateLine doHighlight (textContent old))))
  /\ (forall d, d ∈ out -> d ∈ out1)
  /\ (parentElement p w dirty <> Some REditor ->
      Warn "Line not in editor" dirty ∈ out1).
Proof.
  unfold patchLine.
  destruct (decide (parentElement p w dirty = Some REditor)) as [Hparent|Hparent].
  - destruct (parentElement_editor_child p w dirty Hparent) as (r0 & -> & Hatt).
    destruct (heap p !! r0) as [old|] eqn:Hold; simpl.
    + split; [reflexivity|]. split.
      { intros r [Hne|Hdet].
        - rewrite lookup_insert_ne; [reflexivity | congruence].
        - destruct (decide (r0 = r)) as [->|Hne]; [congruence|].
          now rewrite lookup_insert_ne. }
      split.
      { intros r old' [= <-] _ Hold'. rewrite lookup_insert_eq. congruence. }
      split; [auto | contradiction].
    + split; [reflexivity|]. split; [reflexivity|].
      split; [intros r old' [= <-] _ Hold'; congruence|].
      split; [auto | contradiction].
  - simpl. split; [reflexivity|]. split; [reflexivity|].
    split.
    { intros r old -> Hatt _. exfalso. apply Hparent. simpl. now rewrite Hatt. }
    split.
    + intros d Hd. apply elem_of_app. now left.
    + intros _. apply elem_of_app. right. apply list_elem_of_singleton. reflexivity.
Qed.

Lemma attached_childNodes p q r :
  childNodes p = childNodes q -> attached p r = attached q r.
Proof. intros H. unfold attached. now rewrite H. Qed.

Lemma patchLines_spec w lines : forall p out,
  let p' := fst (fold_left (patchLine doHighlight morphdom w) lines (p, out)) in
  let out' := snd (fold_left (patchLine doHighlight morphdom w) lines (p, out)) in
  childNodes p' = childNodes p
  /\ (forall r, RNode r [] ∉ lines \/ attached p r = false ->
                heap p' !! r = heap p !! r)
  /\ (NoDup lines ->
      forall r old, RNode r [] ∈ lines -> attached p r = true ->
                    heap p !! r = Some old ->
                    heap p' !! r
                    = Some (morphdom old (updateLine doHighlight (textContent old))))
  /\ (forall d, d ∈ out -> d ∈ out')
  /\ (forall dirty, dirty ∈ lines -> parentElement p w dirty <> Some REditor ->
                    Warn "Line not in editor" dirty ∈ out').
Proof.
  induction lines as [|dirty lines IH]; intros p out; cbn [fold_left].
  - simpl. split; [reflexivity|]. split; [reflexivity|].
    split; [intros _ r old Hin; now apply elem_of_nil in Hin|].
    split; [auto|]. intros d Hin. now apply elem_of_nil in Hin.
  - pose proof (patchLine_spec w p out dirty) as Hstep.
    destruct (patchLine doHighlight morphdom w (p, out) dirty) as [p1 out1].
    cbn [fst snd] in Hstep.
    destruct Hstep as (Hch1 & Hkeep1 & Hpatch1 & Hout1 & Hwarn1).
    destruct (IH p1 out1) as (Hch & Hkeep & Hpatch & Hout & Hwarn).
    split; [congruence|]. split.
    { intros r Hr. rewrite Hkeep, Hkeep1; [reflexivity | |].
      - destruct Hr as [Hr|Hr]; [left | now right].
        intros ->. apply Hr. now left.
      - destruct Hr as [Hr|Hr]; [left | right].
        + intros Hin. apply Hr. now right.
        + now rewrite (attached_childNodes p1 p). }
    split.
    { intros Hnd r old Hin Hatt Hold. apply NoDup_cons in Hnd as [Hfirst Hnd].
      apply elem_of_cons in Hin as [<-|Hin].
      - rewrite Hkeep; [now apply Hpatch1 | now left].
      - apply (Hpatch Hnd); [assumption | now rewrite (attached_childNodes p1 p) |].
        rewrite Hkeep1; [assumption|]. left. intros ->. contradiction. }
    split; [auto|].
    intros d [->|Hin]%elem_of_cons Hparent.
    + apply Hout, Hwarn1, Hparent.
    + apply Hwarn; [assumption|].
      now rewrite (parentElement_childNodes p1 p).
Qed.

Lemma persists_normalizeBreaks p : persists p (normalizeBreaks doHighlight p).
Proof.
  unfold normalizeBreaks.
  generalize (List.filter (isBr (heap p)) (childNodes p)) as brs.
  intros brs. revert p. induction brs as [|br brs IH]; intros p; simpl.
  - apply persists_refl.
  - eapply persists_trans; [|apply IH]. apply persists_insert_fresh.
Qed.

Lemma patchLine_child w p d :
  parentElement p w d = Some REditor ->
  exists p1, childNodes p1 = childNodes p
             /\ forall out, patchLine doHighlight morphdom w (p, out) d = (p1, out).
Proof.
  intros Hparent. unfold patchLine.
  destruct (decide (parentElement p w d = Some REditor)); [|contradiction].
  destruct d as [| |k|r [|k path]|name up];
    try (exists p; split; reflexivity).
  destruct (heap p !! r) as [old|]; [|exists p; split; reflexivity].
  eexists. split; [|intros out; reflexivity]. reflexivity.
Qed.

Lemma patchLine_other w p out d :
  parentElement p w d <> Some REditor ->
  patchLine doHighlight morphdom w (p, out) d
  = (p, out ++ [Warn "Line not in editor" d]).
Proof.
  intros Hparent. unfold patchLine.
  now destruct (decide (parentElement p w d = Some REditor)).
Qed.

Lemma editorChildren_childNodes p q w lines :
  childNodes p = childNodes q -> editorChildren p w lines = editorChildren q w lines.
Proof.
  intros Hch. unfold editorChildren. induction lines as [|d lines IH]; simpl;
    [reflexivity|].
  now rewrite (parentElement_childNodes p q w d Hch), IH.
Qed.

Lemma patchLines_only_children w lines : forall p out out',
  fst (fold_left (patchLine doHighlight morphdom w) lines (p, out))
  = fst (fold_left (patchLine doHighlight morphdom w) (editorChildren p w lines)
           (p, out')).
Proof.
  induction lines as [|d lines IH]; intros p out out'; [reflexivity|].
  unfold editorChildren. cbn [List.filter fold_left].
  destruct (decide (parentElement p w d = Some REditor)) as [Hparent|Hparent].
  - rewrite (bool_decide_eq_true_2 _ Hparent). cbn [fold_left].
    destruct (patchLine_child w p d Hparent) as (p1 & Hch & Hstep).
    rewrite !Hstep. fold (editorChildren p w lines).
    rewrite <- (editorChildren_childNodes p1 p w lines Hch). apply IH.
  - rewrite (bool_decide_eq_false_2 _ Hparent), patchLine_other by assumption.
    apply IH.
Qed.

Lemma reconcile_only_children w m :
  let kept := withChangedLines (editorChildren (page m) w (changedLines m)) m in
  page (fst (reconcile doHighlight morphdom w m))
  = page (fst (reconcile doHighlight morphdom w kept))
  /\ snd (reconcile doHighlight morphdom w m)
     = snd (reconcile doHighlight morphdom w kept).
Proof.
  intros kept. unfold reconcile. subst kept. cbn [page changedLines withChangedLines].
  destruct (getCursorPos (page m) w) as [pos|e]; [|split; reflexivity].
  pose proof (patchLines_only_children w (changedLines m) (page m) (console m)
                (console m)) as Hsame.
  cbn [console withChangedLines].
  destruct (fold_left (patchLine doHighlight morphdom w) (changedLines m)
              (page m, console m)) as [patched out].
  destruct (fold_left (patchLine doHighlight morphdom w)
              (editorChildren (page m) w (changedLines m)) (page m, console m))
    as [patched' out'].
  cbn [fst snd page] in *. subst patched'. split; reflexivity.
Qed.

(** X17. In a reconciliation pass that runs (the caret snapshot is read:
    the selection is [null] or holds a range), a dirty node that is not a
    child of the editor is skipped with the diagnostic; when it is an object
    detached from the editor its subtree is as it was; and the pass goes on:
    every dirty line that is a child of the editor is patched to the
    re-tokenized line, the dirty set is cleared and the pass is recorded.
    The skipped nodes leave no trace in the document: the pass ends with the
    page, and completes the way, of a pass whose dirty set holds the
    children of the editor only. *)
Theorem detached_dirty_line_skipped (w : Window) (m : Markjar) (dirty : NodeRef) :
  getSelection w <> Some [] ->
  NoDup (changedLines m) ->
  dirty ∈ changedLines m ->
  parentElement (page m) w dirty <> Some REditor ->
  let m' := fst (reconcile doHighlight morphdom w m) in
  Warn "Line not in editor" dirty ∈ console m'
  /\ (forall r path node,
        dirty = RNode r path -> attached (page m) r = false ->
        heap (page m) !! r = Some node -> heap (page m') !! r = Some node)
  /\ (forall r old,
        RNode r [] ∈ changedLines m -> attached (page m) r = true ->
        heap (page m) !! r = Some old ->
        heap (page m') !! r
        = Some (morphdom old (updateLine doHighlight (textContent old))))
  /\ changedLines m' = []
  /\ passes m' = passes m ++ [changedLines m]
  /\ (let kept := withChangedLines (editorChildren (page m) w (changedLines m)) m in
      page m' = page (fst (reconcile doHighlight morphdom w kept))
      /\ snd (reconcile doHighlight morphdom w m)
         = snd (reconcile doHighlight morphdom w kept)).
Proof.
  intros Hsel Hnd Hin Hparent m'.
  pose proof (reconcile_only_children w m) as Honly.
  assert (exists pos, getCursorPos (page m) w = Normal pos) as [pos Hpos].
  { unfold getCursorPos. destruct (getSelection w) as [[|range ranges]|]; eauto.
    - congruence.
    - destruct (getLineElement (page m) w (startContainer range)); eauto. }
  destruct (patchLines_spec w (changedLines m) (page m) (console m))
    as (Hch & Hkeep & Hpatch & Hout & Hwarn).
  subst m'. unfold reconcile. rewrite Hpos.
  destruct (fold_left (patchLine doHighlight morphdom w) (changedLines m)
              (page m, console m)) as [patched out] eqn:Hfold.
  simpl in *.
  split; [now apply Hwarn|]. split.
  { intros r path node -> Hdet Hnode.
    apply persists_normalizeBreaks. rewrite Hkeep; [assumption | now right]. }
  split.
  { intros r old Hr Hatt Hold. apply persists_normalizeBreaks. now apply Hpatch. }
  split; [reflexivity|]. split; [reflexivity|].
  unfold reconcile in Honly. rewrite Hpos, Hfold in Honly. exact Honly.
Qed.

(** ** The idle scheduler *)

#[local] Abbreviation runM := (run doHighlight morphdom) (only parsing).
#[local] Abbreviation stepM := (step doHighlight morphdom) (only parsing).
#[local] Abbreviation affected := (affectedLines doHighlight morphdom) (only parsing).

Lemma elem_of_setAdd d x xs : d ∈ setAdd x xs <-> d ∈ xs \/ d = x.
Proof.
  unfold setAdd. destruct (decide (x ∈ xs)) as [Hin|Hout].
  - split; [now left | intros [H| ->]; assumption].
  - rewrite elem_of_app, list_elem_of_singleton. reflexivity.
Qed.

Lemma NoDup_setAdd x xs : NoDup xs -> NoDup (setAdd x xs).
Proof.
  intros Hnd. unfold setAdd. destruct (decide (x ∈ xs)) as [Hin|Hout]; [assumption|].
  apply NoDup_app. split; [assumption|]. split; [|apply NoDup_singleton].
  intros y Hy ->%list_elem_of_singleton. contradiction.
Qed.

Lemma cancel_singleSlot m :
  singleSlot m -> cancelIdleCallback (idleId m) (idleCallbacks m) = [].
Proof.
  intros [Hnil|(h & Hid & Hpending)]; unfold cancelIdleCallback.
  - rewrite Hnil. now destruct (idleId m).
  - rewrite Hid, Hpending. simpl. now rewrite Nat.eqb_refl.
Qed.

Lemma reconcile_idle w m :
  idleCallbacks (fst (reconcile doHighlight morphdom w m)) = idleCallbacks m
  /\ idleId (fst (reconcile doHighlight morphdom w m)) = idleId m
  /\ passes (fst (reconcile doHighlight morphdom w m)) = passes m ++ [changedLines m].
Proof.
  unfold reconcile. destruct (getCursorPos (page m) w); simpl.
  - destruct (fold_left _ _ _). simpl. auto.
  - auto.
Qed.

Lemma singleSlot_step m e : singleSlot m -> singleSlot (stepM m e).
Proof.
  intros Hslot. destruct e as [w ranges|edited|w h]; simpl.
  - unfold onBeforeInput. destruct ranges as [|start ranges]; [exact Hslot|].
    destruct (getLineElement (page m) w start); [|exact Hslot].
    right. simpl. exists (S (idleCounter m)). split; [reflexivity|].
    now rewrite (cancel_singleSlot m Hslot).
  - exact Hslot.
  - unfold runIdleCallback.
    destruct (existsb (Nat.eqb h) (idleCallbacks m)) eqn:Hpending; [|exact Hslot].
    left. destruct (reconcile_idle w
                      (mkMarkjar (page m) (changedLines m) (idleId m)
                         (List.filter (fun x => negb (Nat.eqb x h)) (idleCallbacks m))
                         (idleCounter m) (console m) (passes m))) as (-> & _ & _).
    simpl. destruct Hslot as [Hnil|(h0 & _ & Hone)].
    + now rewrite Hnil.
    + rewrite Hone in *. simpl in *. rewrite orb_false_r in Hpending.
      apply Nat.eqb_eq in Hpending. subst h0. now rewrite Nat.eqb_refl.
Qed.

Lemma singleSlot_run events : forall m, singleSlot m -> singleSlot (runM m events).
Proof.
  induction events as [|e events IH]; intros m Hslot; simpl; [assumption|].
  apply IH. now apply singleSlot_step.
Qed.

Lemma singleSlot_length m : singleSlot m -> length (idleCallbacks m) <= 1.
Proof. intros [->|(h & _ & ->)]; simpl; lia. Qed.

(** A notification either leaves the scheduler and the dirty set alone, or
    records its line and leaves exactly the callback it requested. *)
Lemma edit_step m e :
  singleSlot m -> noIdle e ->
  passes (stepM m e) = passes m
  /\ ((affected m [e] = [] /\ changedLines (stepM m e) = changedLines m
       /\ idleCallbacks (stepM m e) = idleCallbacks m
       /\ idleId (stepM m e) = idleId m)
      \/ (exists dirty h, affected m [e] = [dirty]
            /\ changedLines (stepM m e) = setAdd dirty (changedLines m)
            /\ idleCallbacks (stepM m e) = [h])).
Proof.
  intros Hslot Hedit.
  destruct e as [w ranges|edited|w h]; simpl in *.
  - unfold onBeforeInput. destruct ranges as [|start ranges]; simpl;
      [split; [reflexivity|]; left; repeat split; reflexivity|].
    destruct (getLineElement (page m) w start) as [dirty|]; simpl;
      [|split; [reflexivity|]; left; repeat split; reflexivity].
    split; [reflexivity|]. right. exists dirty, (S (idleCounter m)).
    rewrite (cancel_singleSlot m Hslot). repeat split; reflexivity.
  - split; [reflexivity|]. left. repeat split; reflexivity.
  - contradiction.
Qed.

Lemma affected_cons m e events :
  affected m (e :: events) = affected m [e] ++ affected (stepM m e) events.
Proof. simpl. now rewrite app_nil_r. Qed.

Lemma burst_spec burst : forall m,
  singleSlot m -> Forall noIdle burst ->
  passes (runM m burst) = passes m
  /\ (forall d, d ∈ changedLines (runM m burst)
                <-> d ∈ changedLines m \/ d ∈ affected m burst)
  /\ (affected m burst = [] -> idleCallbacks (runM m burst) = idleCallbacks m)
  /\ (affected m burst <> [] -> exists h, idleCallbacks (runM m burst) = [h]).
Proof.
  induction burst as [|e burst IH]; intros m Hslot Hburst.
  - simpl. split; [reflexivity|]. split.
    + intros d. split; [now left | intros [H|H]; [assumption | now apply elem_of_nil in H]].
    + split; [reflexivity | congruence].
  - apply Forall_cons in Hburst as [He Hburst].
    destruct (IH (stepM m e) (singleSlot_step m e Hslot) Hburst)
      as (Hpasses & Hdirty & Hquiet & Harmed).
    destruct (edit_step m e Hslot He) as (Hpasses1 & Hstep).
    rewrite affected_cons.
    change (runM m (e :: burst)) with (runM (stepM m e) burst).
    split; [congruence|].
    destruct Hstep as [(Hnone & Hsame & Hpending & _)|(dirty & h & Hsome & Hadd & Hpending)].
    + rewrite Hnone. simpl. split.
      { intros d. rewrite Hdirty, Hsame. reflexivity. }
      split.
      * intros Hnil. rewrite Hquiet; assumption.
      * exact Harmed.
    + rewrite Hsome. split.
      { intros d. rewrite Hdirty, Hadd, elem_of_setAdd. simpl.
        rewrite elem_of_cons. tauto. }
      split; [discriminate|]. intros _.
      destruct (affected (stepM m e) burst) as [|d ds] eqn:Hrest.
      * exists h. rewrite Hquiet; [assumption | reflexivity].
      * apply Harmed. discriminate.
Qed.

(** C4, as the code has it. Whatever has happened to the instance, at most
    one reconciliation task is pending at any time.  A burst of edit
    notifications with no idle period in between, of which one at least
    resolves to an enclosing line, runs no pass and leaves exactly one task
    pending; the dirty set then holds the lines that were dirty before and
    the lines the burst resolved to; when the host runs that task, one pass
    runs, over that dirty set, and no task is left pending.  (A notification
    that resolves to no line records nothing and requests no task.) *)
Theorem burst_coalesces_into_one_pass (before burst : list Event) :
  let m := runM newMarkjar before in
  let m' := runM m burst in
  Forall noIdle burst ->
  affected m burst <> [] ->
  (forall n, length (idleCallbacks (runM newMarkjar (take n (before ++ burst)))) <= 1)
  /\ passes m' = passes m
  /\ (forall d, d ∈ changedLines m' <-> d ∈ changedLines m \/ d ∈ affected m burst)
  /\ exists h, idleCallbacks m' = [h]
       /\ forall w, passes (stepM m' (Idle w h)) = passes m ++ [changedLines m']
                    /\ idleCallbacks (stepM m' (Idle w h)) = [].
Proof.
  intros m m' Hburst Haffected.
  assert (singleSlot newMarkjar) as Hnew by (now left).
  assert (singleSlot m) as Hslot by (now apply singleSlot_run).
  destruct (burst_spec burst m Hslot Hburst) as (Hpasses & Hdirty & _ & Harmed).
  split.
  { intros n. apply singleSlot_length. now apply singleSlot_run. }
  split; [exact Hpasses|]. split; [exact Hdirty|].
  destruct (Harmed Haffected) as [h Hpending]. fold m' in Hpending, Hpasses.
  exists h. split; [exact Hpending|]. intros w.
  simpl. unfold runIdleCallback. rewrite Hpending. simpl. rewrite Nat.eqb_refl. simpl.
  destruct (reconcile_idle w
              (mkMarkjar (page m') (changedLines m') (idleId m') []
                         (idleCounter m') (console m') (passes m')))
    as (Hidle & _ & Hran).
  rewrite Hidle, Hran. simpl. now rewrite Hpasses.
Qed.

(** ** [#getCursorPos] *)

(** Where [#getCursorPos] does return [null]: no selection object, or a
    first range that starts at the editor itself, at a node with no parent
    element, or below a parent with no [div] at or above it. *)
Lemma getCursorPos_null_cases p w :
  (getSelection w = None -> getCursorPos p w = Normal None)
  /\ (forall range ranges,
        getSelection w = Some (range :: ranges) ->
        getLineElement p w (startContainer range) = None ->
        getCursorPos p w = Normal None)
  /\ getLineElement p w REditor = None
  /\ (forall node, parentElement p w node = None -> getLineElement p w node = None)
  /\ (forall node parent,
        parentElement p w node = Some parent -> parent <> REditor ->
        node <> REditor -> closestDiv p w parent = None ->
        getLineElement p w node = None).
Proof.
  split; [|split; [|split; [|split]]].
  - intros H. unfold getCursorPos. now rewrite H.
  - intros range ranges H Hline. unfold getCursorPos. now rewrite H, Hline.
  - reflexivity.
  - intros node H. unfold getLineElement. rewrite H. now destruct (decide _).
  - intros node parent H Hparent Hnode Hclosest. unfold getLineElement.
    rewrite H. destruct (decide (node = REditor)); [contradiction|].
    destruct (decide (parent = REditor)); [contradiction | assumption].
Qed.

(** ** Further properties *)

(** *** [#getCursorPos] on a caret inside a rendered line *)

Lemma indexOfRef_lookup (refs : list nat) i r :
  NoDup refs -> refs !! i = Some r -> indexOfRef refs r = Z.of_nat i.
Proof.
  revert i. induction refs as [|x rest IH]; intros i Hnd Hi; [discriminate|].
  apply NoDup_cons in Hnd as [Hx Hnd]. destruct i as [|i]; simpl in *.
  - injection Hi as ->. now rewrite Nat.eqb_refl.
  - assert (x <> r) as Hne.
    { intros ->. apply Hx. eapply list_elem_of_lookup_2; eauto. }
    apply Nat.eqb_neq in Hne. rewrite Hne, (IH i Hnd Hi).
    destruct (Z.of_nat i <? 0)%Z eqn:E; [apply Z.ltb_lt in E; lia | lia].
Qed.

Lemma attached_elem_of p r : r ∈ childNodes p -> attached p r = true.
Proof.
  intros Hin. unfold attached. apply existsb_exists. exists r.
  split; [now apply list_elem_of_In | apply Nat.eqb_refl].
Qed.

Lemma getLineElement_in_line (p : Page) (w : Window) (r i : nat)
    (path : list nat) (n : Node) :
  children p !! i = Some r ->
  heap p !! r = Some n ->
  path = [] \/ deepestDiv n (removelast path) = Some [] ->
  getLineElement p w (RNode r path) = Some (RNode r []).
Proof.
  intros Hi Hn Hpath.
  assert (attached p r = true) as Hatt.
  { apply attached_elem_of. apply list_elem_of_lookup_2 in Hi.
    now apply children_elem in Hi. }
  unfold getLineElement. destruct (decide (RNode r path = REditor)); [discriminate|].
  destruct path as [|k path].
  - simpl. rewrite Hatt. now destruct (decide (REditor = REditor)).
  - destruct Hpath as [Hnil|Hdiv]; [discriminate|].
    cbn [parentElement].
    destruct (decide (RNode r (removelast (k :: path)) = REditor)); [discriminate|].
    cbn [closestDiv]. now rewrite Hn, Hdiv.
Qed.

(** X1. A caret whose range starts in the [i]-th rendered line (at the
    line node itself, or below it with the line as the nearest [div] at or
    above its parent) is read as line [i], with the column that the host
    measures from the start of that line. *)
Theorem getCursorPos_line_of_caret (p : Page) (w : Window) (range : Range)
    (ranges : list Range) (r i : nat) (path : list nat) (n : Node) :
  wellFormed p ->
  getSelection w = Some (range :: ranges) ->
  startContainer range = RNode r path ->
  children p !! i = Some r ->
  heap p !! r = Some n ->
  path = [] \/ deepestDiv n (removelast path) = Some [] ->
  getCursorPos p w
  = Normal (Some (mkCursorPos (Z.of_nat i) (preLength range (RNode r [])))).
Proof.
  intros Hwf Hsel Hstart Hi Hn Hpath.
  unfold getCursorPos. rewrite Hsel, Hstart.
  rewrite (getLineElement_in_line p w r i path n Hi Hn Hpath). simpl.
  now rewrite (indexOfRef_lookup (children p) i r (NoDup_children p Hwf) Hi).
Qed.

(** *** [#updateText] on an editor that already reads the text *)

Lemma updateTextFrom_in_sync textLines : forall i p,
  (forall k line, textLines !! k = Some line ->
                  exists r, children p !! (i + k) = Some r /\ textOf p r = line) ->
  updateTextFrom doHighlight i textLines p = p.
Proof.
  induction textLines as [|line rest IH]; intros i p Hsync; simpl; [reflexivity|].
  assert (updateTextAt doHighlight i line p = p) as ->.
  { destruct (Hsync 0 line eq_refl) as (r & Hr & Htext).
    rewrite Nat.add_0_r in Hr. unfold updateTextAt. rewrite Hr, Htext.
    now rewrite String.eqb_refl. }
  apply IH. intros k l Hk. replace (S i + k) with (i + S k) by lia.
  now apply Hsync.
Qed.

Lemma trim_short n p : length (children p) <= n -> trim n p = p.
Proof.
  intros Hlen. unfold trim. destruct (length (childNodes p)); simpl; [reflexivity|].
  destruct (Nat.ltb n (length (children p))) eqn:E; [|reflexivity].
  apply Nat.ltb_lt in E. lia.
Qed.

Lemma updateText_in_sync text p :
  map (textOf p) (children p) = split text -> updateText doHighlight text p = p.
Proof.
  intros Hsync. unfold updateText.
  rewrite updateTextFrom_in_sync.
  - apply trim_short. now rewrite <- Hsync, length_map.
  - intros k line Hk. rewrite <- Hsync, list_lookup_fmap in Hk.
    destruct (children p !! k) as [r|] eqn:Hr; [|discriminate].
    injection Hk as <-. exists r. auto.
Qed.

(** X2. Writing back the text that was read changes nothing in the editor:
    when the editor has a line and no rendered line holds the separator, a
    pass of [#updateText] over the text that [getText] returns replaces,
    appends and removes no node. *)
Theorem updateText_getText_noop (p : Page) :
  children p <> [] ->
  Forall sepFree (map (textOf p) (children p)) ->
  updateText doHighlight (getText p) p = p.
Proof.
  intros Hne Hfree. apply updateText_in_sync. unfold getText.
  symmetry. apply split_join; [|assumption].
  destruct (children p); [congruence | discriminate].
Qed.

(** X3. [#updateText] is idempotent: with a tokenizer that keeps the text,
    a second pass over the same text leaves the editor of the first pass as
    it is, every line the same object. *)
Theorem updateText_idempotent (text : string) (p : Page) :
  wellFormed p ->
  tokenizerRoundTrip doHighlight ->
  updateText doHighlight text (updateText doHighlight text p)
  = updateText doHighlight text p.
Proof.
  intros Hwf Hrt. apply updateText_in_sync. now apply updateText_texts.
Qed.

(** *** [updateLine] *)

Lemma concatText_textContent_snoc cs tag classes :
  concatText (map textContent (cs ++ [Element tag classes []]))
  = concatText (map textContent cs).
Proof.
  rewrite map_app, concatText_app. cbn [map textContent concatText fold_right].
  now rewrite !string_append_nil.
Qed.

(** X4. The line that [updateLine] renders reads the text it was given
    (the anchor marker adds no text); and when the tokenizer emits no
    [mj-cursor] element itself, an anchor marker occurs only as the last child
    of the line, right after a fixed-width block. *)
Theorem updateLine_text_and_anchor (text : string) :
  tokenizerRoundTrip doHighlight ->
  Forall (fun c => shouldSetCursor c = false) (doHighlight text) ->
  textContent (updateLine doHighlight text) = text
  /\ forall k c,
       nodeChildren (updateLine doHighlight text) !! k = Some c ->
       shouldSetCursor c = true ->
       S k = length (nodeChildren (updateLine doHighlight text))
       /\ exists j block,
            k = S j
            /\ nodeChildren (updateLine doHighlight text) !! j = Some block
            /\ isFixedWidthBlock block = true.
Proof.
  intros Hrt Hplain.
  pose proof (textContent_createLine text Hrt) as Htext.
  assert (Forall (fun c => shouldSetCursor c = false)
                 (nodeChildren (createLine doHighlight text))) as Hcs.
  { unfold createLine. simpl. destruct (String.eqb text "").
    - repeat constructor.
    - exact Hplain. }
  assert (forall k c, nodeChildren (createLine doHighlight text) !! k = Some c ->
                      shouldSetCursor c = true -> False) as Hnone.
  { intros k c Hk Hc. rewrite Forall_forall in Hcs.
    rewrite Hcs in Hc; [discriminate|].
    eapply list_elem_of_lookup_2; eauto. }
  unfold updateLine.
  destruct (last (nodeChildren (createLine doHighlight text))) as [lastChild|] eqn:Hlast.
  - destruct (isFixedWidthBlock lastChild) eqn:Hblock.
    + split.
      * cbn [textContent]. rewrite concatText_textContent_snoc. exact Htext.
      * intros k c Hk Hc. cbn [nodeChildren] in *.
        set (cs := nodeChildren (createLine doHighlight text)) in *.
        rewrite last_lookup in Hlast.
        assert (0 < length cs) as Hlen.
        { destruct cs; [discriminate | simpl; lia]. }
        destruct (decide (k < length cs)) as [Hin|Hout].
        -- rewrite lookup_app_l in Hk by assumption. destruct (Hnone k c Hk Hc).
        -- assert (k = length cs) as ->.
           { apply lookup_lt_Some in Hk. rewrite length_app in Hk. simpl in Hk. lia. }
           split; [rewrite length_app; simpl; lia|].
           exists (Nat.pred (length cs)), lastChild.
           split; [lia|]. split; [|assumption].
           rewrite lookup_app_l by lia. exact Hlast.
    + split; [exact Htext|]. intros k c Hk Hc. destruct (Hnone k c Hk Hc).
  - split; [exact Htext|]. intros k c Hk Hc. destruct (Hnone k c Hk Hc).
Qed.

(** *** When [#setCursorPos] throws *)

(** X11. The caret restore throws exactly when there is a position to
    restore, a selection to restore it into and no rendered line at all:
    [editor.children[validLine]] is then [undefined]. *)
Theorem setCursorPos_throws_iff (p : Page) (w : Window) (pos : option CursorPos) :
  wellFormed p ->
  (exists e, setCursorPos p w pos = Throw e)
  <-> is_Some pos /\ is_Some (getSelection w) /\ children p = [].
Proof.
  intros Hwf. split.
  - intros [e He]. destruct (children p) as [|r rest] eqn:Hch.
    + unfold setCursorPos in He. destruct pos as [pos|]; [|discriminate].
      destruct (getSelection w) as [sel|]; [|discriminate].
      repeat split; eauto.
    + destruct (setCursorPos_completes p w pos Hwf) as [b Hb]; [congruence|].
      congruence.
  - intros ([pos' ->] & [sel Hsel] & Hch). exists "TypeError".
    unfold setCursorPos. rewrite Hsel.
    assert (validLine p pos' = (-1)%Z) as Hv.
    { unfold validLine. rewrite Hch. simpl. lia. }
    now rewrite Hv.
Qed.

(** *** The normalisation of stray [br] children *)

Lemma childNodes_replaceChild p node b j :
  wellFormed p -> childNodes p !! j = Some b ->
  childNodes (replaceChild node b p) = <[j := freshRef p]> (childNodes p).
Proof. intros [Hnd _] Hj. simpl. now apply replaceRef_insert. Qed.

Lemma replaceAll_spec node brs : forall p,
  wellFormed p -> NoDup brs -> (forall b, b ∈ brs -> b ∈ childNodes p) ->
  let q := fold_left (fun q br => replaceChild node br q) brs p in
  wellFormed q /\ persists p q
  /\ length (childNodes q) = length (childNodes p)
  /\ (forall i r, childNodes p !! i = Some r -> r ∉ brs -> childNodes q !! i = Some r)
  /\ (forall i r, childNodes p !! i = Some r -> r ∈ brs ->
        exists r', childNodes q !! i = Some r' /\ heap p !! r' = None
                   /\ heap q !! r' = Some node).
Proof.
  induction brs as [|b rest IH]; intros p Hwf Hnd Hsub; simpl.
  - split; [assumption|]. split; [apply persists_refl|]. split; [reflexivity|].
    split; [auto|]. intros i r _ Hin. now apply elem_of_nil in Hin.
  - apply NoDup_cons in Hnd as [Hb Hnd].
    assert (b ∈ childNodes p) as Hbin by (apply Hsub; now left).
    apply list_elem_of_lookup_1 in Hbin as [j Hj].
    pose proof (childNodes_replaceChild p node b j Hwf Hj) as Hch1.
    pose proof (wellFormed_replaceChild p node b Hwf) as Hwf1.
    pose proof (freshRef_not_child p Hwf) as Hfresh.
    assert (persists p (replaceChild node b p)) as Hp1 by apply persists_insert_fresh.
    assert (forall i r, childNodes p !! i = Some r -> r <> b ->
                        childNodes (replaceChild node b p) !! i = Some r) as Hother.
    { intros i r Hi Hne. rewrite Hch1, list_lookup_insert_ne; [assumption|].
      intros <-. congruence. }
    destruct (IH (replaceChild node b p) Hwf1 Hnd) as (Hwf' & Hp' & Hlen & Hkeep & Hnew).
    { intros b' Hb'. assert (b' ∈ childNodes p) as Hin by (apply Hsub; now right).
      apply list_elem_of_lookup_1 in Hin as [i Hi].
      eapply list_elem_of_lookup_2. apply (Hother i b' Hi). intros ->. contradiction. }
    split; [assumption|]. split; [eapply persists_trans; eauto|].
    split; [rewrite Hlen, Hch1; apply length_insert|]. split.
    + intros i r Hi Hout. apply not_elem_of_cons in Hout as [Hne Hout].
      apply Hkeep; [now apply Hother | assumption].
    + intros i r Hi [->|Hin]%elem_of_cons.
      * assert (i = j) as ->.
        { exact (NoDup_lookup _ i j _ (proj1 Hwf) Hi Hj). }
        exists (freshRef p). split; [|split].
        -- apply Hkeep.
           ++ rewrite Hch1. apply list_lookup_insert_eq. eapply lookup_lt_Some; eauto.
           ++ intros Hin. apply Hfresh, Hsub. now right.
        -- apply freshRef_None.
        -- apply Hp'. simpl. apply lookup_insert_eq.
      * assert (r <> b) as Hne by (intros ->; contradiction).
        destruct (Hnew i r (Hother i r Hi Hne) Hin) as (r' & Hr' & Hnone & Hnode).
        exists r'. split; [assumption|]. split; [|assumption].
        eapply persists_None; eauto.
Qed.

Lemma isBr_persists p q r :
  persists p q -> is_Some (heap p !! r) -> isBr (heap q) r = isBr (heap p) r.
Proof. intros Hpq [n Hn]. unfold isBr. now rewrite Hn, (Hpq _ _ Hn). Qed.

Lemma elem_of_breaks p r :
  r ∈ List.filter (isBr (heap p)) (childNodes p)
  <-> r ∈ childNodes p /\ isBr (heap p) r = true.
Proof. rewrite list_elem_of_In, filter_In, <- list_elem_of_In. tauto. Qed.

Lemma normalizeBreaks_spec (p : Page) :
  wellFormed p ->
  let q := normalizeBreaks doHighlight p in
  wellFormed q
  /\ length (childNodes q) = length (childNodes p)
  /\ (forall i r, childNodes p !! i = Some r -> isBr (heap p) r = false ->
        childNodes q !! i = Some r /\ heap q !! r = heap p !! r)
  /\ (forall i r, childNodes p !! i = Some r -> isBr (heap p) r = true ->
        exists r', childNodes q !! i = Some r' /\ heap p !! r' = None
                   /\ heap q !! r' = Some (createLine doHighlight ""))
  /\ (forall r, r ∈ childNodes q -> isBr (heap q) r = false).
Proof.
  intros Hwf q.
  destruct (replaceAll_spec (createLine doHighlight "")
              (List.filter (isBr (heap p)) (childNodes p)) p Hwf)
    as (Hwf' & Hp' & Hlen & Hkeep & Hnew).
  { destruct Hwf as [Hnd _]. apply NoDup_ListNoDup, List.NoDup_filter.
    now apply NoDup_ListNoDup. }
  { intros b Hb. now apply elem_of_breaks in Hb. }
  fold (normalizeBreaks doHighlight p) in Hwf', Hp', Hlen, Hkeep, Hnew. fold q in Hwf', Hp', Hlen, Hkeep, Hnew.
  assert (forall i r, childNodes p !! i = Some r -> isBr (heap p) r = false ->
            childNodes q !! i = Some r /\ heap q !! r = heap p !! r) as Hsame.
  { intros i r Hi Hbr. split.
    - apply Hkeep; [assumption|]. intros [_ H]%elem_of_breaks. congruence.
    - destruct Hwf as [_ Hlive]. destruct (Hlive r) as [n Hn];
        [eapply list_elem_of_lookup_2; eauto|].
      now rewrite Hn, (Hp' _ _ Hn). }
  assert (forall i r, childNodes p !! i = Some r -> isBr (heap p) r = true ->
            exists r', childNodes q !! i = Some r' /\ heap p !! r' = None
                       /\ heap q !! r' = Some (createLine doHighlight "")) as Hfresh.
  { intros i r Hi Hbr. apply (Hnew i r Hi). apply elem_of_breaks. split; [|assumption].
    eapply list_elem_of_lookup_2; eauto. }
  split; [assumption|]. split; [assumption|]. split; [assumption|].
  split; [assumption|].
  intros r Hr. apply list_elem_of_lookup_1 in Hr as [i Hi].
  assert (is_Some (childNodes p !! i)) as [r0 Hr0].
  { apply lookup_lt_is_Some. rewrite <- Hlen. eapply lookup_lt_Some; eauto. }
  destruct (isBr (heap p) r0) eqn:Hbr.
  - destruct (Hfresh i r0 Hr0 Hbr) as (r' & Hr' & _ & Hnode).
    assert (r = r') as -> by congruence.
    unfold isBr. now rewrite Hnode.
  - destruct (Hsame i r0 Hr0 Hbr) as [Hq Hheap].
    assert (r = r0) as -> by congruence.
    unfold isBr in *. now rewrite Hheap.
Qed.

(** X5. The normalisation that ends a pass replaces every [br] that is a
    child of the editor, in its place, by a freshly made empty line, and
    nothing else: the other children keep their place, identity and subtree,
    the number of child nodes is the same, and afterwards no child of the
    editor is a [br]. *)
Theorem normalizeBreaks_replaces_breaks (p : Page) :
  wellFormed p ->
  let q := normalizeBreaks doHighlight p in
  wellFormed q
  /\ length (childNodes q) = length (childNodes p)
  /\ (forall i r, childNodes p !! i = Some r -> isBr (heap p) r = false ->
        childNodes q !! i = Some r /\ heap q !! r = heap p !! r)
  /\ (forall i r, childNodes p !! i = Some r -> isBr (heap p) r = true ->
        exists r', childNodes q !! i = Some r' /\ heap p !! r' = None
                   /\ heap q !! r' = Some (createLine doHighlight ""))
  /\ (forall r, r ∈ childNodes q -> isBr (heap q) r = false).
Proof. apply normalizeBreaks_spec. Qed.

(** *** The text of the editor across a pass *)

Lemma textContent_updateLine text :
  tokenizerRoundTrip doHighlight -> textContent (updateLine doHighlight text) = text.
Proof.
  intros Hrt. pose proof (textContent_createLine text Hrt) as Htext.
  unfold updateLine.
  destruct (last (nodeChildren (createLine doHighlight text))) as [c|]; [|exact Htext].
  destruct (isFixedWidthBlock c); [|exact Htext].
  cbn [textContent]. rewrite concatText_textContent_snoc. exact Htext.
Qed.

Lemma filter_map_pointwise (f1 f2 : nat -> bool) (g1 g2 : nat -> string) l1 l2 :
  Forall2 (fun a b => f1 a = f2 b /\ g1 a = g2 b) l1 l2 ->
  map g1 (List.filter f1 l1) = map g2 (List.filter f2 l2).
Proof.
  induction 1 as [|a b l1 l2 [Hf Hg] _ IH]; simpl; [reflexivity|].
  rewrite Hf. destruct (f2 b); simpl; [rewrite Hg|]; now rewrite IH.
Qed.

Lemma getText_normalizeBreaks p :
  wellFormed p -> strayBreaksEmpty p ->
  getText (normalizeBreaks doHighlight p) = getText p.
Proof.
  intros Hwf Hempty.
  destruct (normalizeBreaks_spec p Hwf) as (_ & Hlen & Hsame & Hfresh & _).
  unfold getText, children. f_equal. apply filter_map_pointwise.
  apply Forall2_same_length_lookup. split; [assumption|].
  intros i r' r Hr' Hr.
  destruct (isBr (heap p) r) eqn:Hbr.
  - destruct (Hfresh i r Hr Hbr) as (r0 & Hr0 & _ & Hnode).
    assert (r' = r0) as -> by congruence.
    assert (textOf p r = "") as Htext.
    { apply Hempty; [eapply list_elem_of_lookup_2; eauto | assumption]. }
    unfold isElementRef, textOf in *. rewrite Hnode. unfold isBr in Hbr.
    destruct (heap p !! r) as [[data|tag classes cs]|]; try discriminate.
    split; [reflexivity|]. now rewrite Htext.
  - destruct (Hsame i r Hr Hbr) as [Hq Hheap].
    assert (r' = r) as -> by congruence.
    unfold isElementRef, textOf. now rewrite Hheap.
Qed.

Lemma patchLine_text w p out dirty :
  tokenizerRoundTrip doHighlight -> patcherDelivers morphdom ->
  (forall r, dirty = RNode r [] -> attached p r = true ->
             isElementRef (heap p) r = true) ->
  let p1 := fst (patchLine doHighlight morphdom w (p, out) dirty) in
  childNodes p1 = childNodes p
  /\ forall r, isElementRef (heap p1) r = isElementRef (heap p) r
               /\ textOf p1 r = textOf p r
               /\ (heap p1 !! r = heap p !! r \/ isBr (heap p1) r = false).
Proof.
  intros Hrt Hdelivers Helement. unfold patchLine.
  destruct (decide (parentElement p w dirty = Some REditor)) as [Hparent|Hparent];
    [|simpl; auto].
  destruct (parentElement_editor_child p w dirty Hparent) as (r0 & -> & Hatt).
  destruct (heap p !! r0) as [old|] eqn:Hold; simpl; [|auto].
  split; [reflexivity|]. intros r.
  destruct (decide (r = r0)) as [->|Hne].
  - rewrite Hdelivers. unfold isElementRef, textOf, isBr. cbn [heap].
    rewrite !lookup_insert_eq.
    pose proof (Helement r0 eq_refl Hatt) as Hel. unfold isElementRef in Hel.
    rewrite Hold in *. rewrite textContent_updateLine by assumption.
    split; [|split; [reflexivity|right]].
    + rewrite Hel. unfold updateLine.
      destruct (last _) as [c|]; [destruct (isFixedWidthBlock c)|]; reflexivity.
    + unfold updateLine.
      destruct (last _) as [c|]; [destruct (isFixedWidthBlock c)|]; reflexivity.
  - unfold isElementRef, textOf. cbn [heap].
    rewrite !lookup_insert_ne by congruence. auto.
Qed.

Lemma patchLines_text w lines : forall p out,
  tokenizerRoundTrip doHighlight -> patcherDelivers morphdom ->
  dirtyLinesAreElements p lines ->
  let p' := fst (fold_left (patchLine doHighlight morphdom w) lines (p, out)) in
  childNodes p' = childNodes p
  /\ forall r, isElementRef (heap p') r = isElementRef (heap p) r
               /\ textOf p' r = textOf p r
               /\ (heap p' !! r = heap p !! r \/ isBr (heap p') r = false).
Proof.
  induction lines as [|dirty lines IH]; intros p out Hrt Hdelivers Helements;
    cbn [fold_left].
  - simpl. auto.
  - pose proof (patchLine_text w p out dirty Hrt Hdelivers) as Hstep.
    destruct (patchLine doHighlight morphdom w (p, out) dirty) as [p1 out1].
    cbn [fst] in Hstep.
    destruct Hstep as (Hch1 & Hsame1).
    { intros r -> Hatt. apply Helements; [now left | assumption]. }
    destruct (IH p1 out1 Hrt Hdelivers) as (Hch & Hsame).
    { intros r Hin Hatt. destruct (Hsame1 r) as (-> & _ & _).
      apply Helements; [now right|]. now rewrite (attached_childNodes p p1). }
    split; [congruence|]. intros r.
    destruct (Hsame r) as (Hel & Htext & Hheap).
    destruct (Hsame1 r) as (Hel1 & Htext1 & Hheap1).
    split; [congruence|]. split; [congruence|].
    destruct Hheap as [Hheap|Hbr]; [|now right].
    destruct Hheap1 as [Hheap1|Hbr1]; [left; congruence|].
    right. unfold isBr in *. now rewrite Hheap.
Qed.

Lemma patchLines_wellFormed w lines : forall p out,
  wellFormed p ->
  wellFormed (fst (fold_left (patchLine doHighlight morphdom w) lines (p, out))).
Proof.
  induction lines as [|dirty lines IH]; intros p out Hwf; cbn [fold_left];
    [exact Hwf|].
  assert (wellFormed (fst (patchLine doHighlight morphdom w (p, out) dirty))) as Hwf1.
  { unfold patchLine.
    destruct (decide (parentElement p w dirty = Some REditor)); [|exact Hwf].
    destruct dirty as [| |k|r path|name up]; try exact Hwf.
    destruct path; [|exact Hwf].
    destruct (heap p !! r) as [old|] eqn:Hold; [|exact Hwf].
    destruct Hwf as [Hnd Hlive]. split; simpl; [assumption|].
    intros x Hx. destruct (decide (x = r)) as [->|Hne].
    - rewrite lookup_insert_eq. eauto.
    - rewrite lookup_insert_ne by congruence. auto. }
  destruct (patchLine doHighlight morphdom w (p, out) dirty) as [p1 out1].
  now apply IH.
Qed.

(** X6. A reconciliation pass does not change the text of the editor:
    with a tokenizer that keeps the text and a patcher that delivers the
    desired node, when the dirty lines of the editor are elements and its
    stray [br] children hold no text, [getText()] after the pass (completed
    or thrown) is [getText()] before it. *)
Theorem reconcile_preserves_text (w : Window) (m : Markjar) :
  wellFormed (page m) ->
  tokenizerRoundTrip doHighlight ->
  patcherDelivers morphdom ->
  dirtyLinesAreElements (page m) (changedLines m) ->
  strayBreaksEmpty (page m) ->
  getText (page (fst (reconcile doHighlight morphdom w m))) = getText (page m).
Proof.
  intros Hwf Hrt Hdelivers Helements Hempty. unfold reconcile.
  destruct (getCursorPos (page m) w) as [pos|e]; [|reflexivity].
  pose proof (patchLines_text w (changedLines m) (page m) (console m)
                Hrt Hdelivers Helements) as (Hch & Hsame).
  pose proof (patchLines_wellFormed w (changedLines m) (page m) (console m) Hwf)
    as Hwf'.
  destruct (fold_left (patchLine doHighlight morphdom w) (changedLines m)
              (page m, console m)) as [patched out].
  cbn [fst snd page] in *.
  rewrite getText_normalizeBreaks; [|assumption|].
  - unfold getText, children. rewrite Hch. f_equal.
    apply filter_map_pointwise. apply Forall2_same_length_lookup.
    split; [reflexivity|]. intros i a b Ha Hb.
    assert (a = b) as -> by congruence.
    destruct (Hsame b) as (Hel & Htext & _). auto.
  - intros r Hr Hbr. destruct (Hsame r) as (_ & Htext & [Hheap|Hnot]); [|congruence].
    rewrite Htext. apply Hempty; [now rewrite <- Hch|].
    unfold isBr in *. now rewrite <- Hheap.
Qed.

(** X7. A pass settles the editor: after a pass that ran past its caret
    snapshot, a second pass (no edit in between, whatever the selection)
    changes no node of the editor, finds the dirty set empty and logs
    nothing. *)
Theorem reconcile_twice_changes_nothing (w1 w2 : Window) (m : Markjar) :
  wellFormed (page m) ->
  getSelection w1 <> Some [] ->
  let m1 := fst (reconcile doHighlight morphdom w1 m) in
  let m2 := fst (reconcile doHighlight morphdom w2 m1) in
  page m2 = page m1 /\ changedLines m1 = [] /\ changedLines m2 = []
  /\ console m2 = console m1.
Proof.
  intros Hwf Hsel m1 m2.
  assert (exists pos, getCursorPos (page m) w1 = Normal pos) as [pos Hpos].
  { unfold getCursorPos. destruct (getSelection w1) as [[|range ranges]|]; eauto.
    - congruence.
    - destruct (getLineElement (page m) w1 (startContainer range)); eauto. }
  pose proof (patchLines_wellFormed w1 (changedLines m) (page m) (console m) Hwf)
    as Hwf'.
  assert (changedLines m1 = [] /\
          forall r, r ∈ childNodes (page m1) -> isBr (heap (page m1)) r = false)
    as [Hclear Hnobr].
  { subst m1. unfold reconcile. rewrite Hpos.
    destruct (fold_left (patchLine doHighlight morphdom w1) (changedLines m)
                (page m, console m)) as [patched out].
    cbn [fst page changedLines] in *. split; [reflexivity|].
    now destruct (normalizeBreaks_spec patched Hwf') as (_ & _ & _ & _ & Hnone). }
  assert (normalizeBreaks doHighlight (page m1) = page m1) as Hnorm.
  { unfold normalizeBreaks.
    assert (List.filter (isBr (heap (page m1))) (childNodes (page m1)) = []) as ->;
      [|reflexivity].
    destruct (List.filter _ _) as [|b brs] eqn:Hbrs; [reflexivity|].
    assert (b ∈ List.filter (isBr (heap (page m1))) (childNodes (page m1))) as Hb
        by (rewrite Hbrs; now left).
    apply elem_of_breaks in Hb as [Hin Hbr]. rewrite Hnobr in Hbr; [discriminate | assumption]. }
  subst m2. unfold reconcile. rewrite Hclear.
  destruct (getCursorPos (page m1) w2); simpl.
  - rewrite Hnorm. repeat split; reflexivity.
  - repeat split; reflexivity.
Qed.

(** *** Where [moveCursorToColumn] puts the caret *)

Lemma leaf_in_app (A B before after : list Leaf) l :
  A ++ B = before ++ l :: after ->
  (exists rest, A = before ++ l :: rest /\ after = rest ++ B)
  \/ (exists more, before = A ++ more /\ B = more ++ l :: after).
Proof.
  revert before. induction A as [|x A IH]; intros before Heq.
  - right. exists before. auto.
  - destruct before as [|y before]; simpl in Heq; injection Heq as -> Heq.
    + left. exists A. auto.
    + destruct (IH before Heq) as [(rest & -> & ->)|(more & -> & ->)].
      * left. exists rest. auto.
      * right. exists more. auto.
Qed.

Lemma flatChildren_locate root path (leaves : nat -> option Node -> Node -> list Leaf) cs :
  (forall k next c, totalLength (leaves k next c) = String.length (textContent c)) ->
  Forall (fun c => forall k next before l after,
            leaves k next c = before ++ l :: after ->
            exists q, leafRef l = RNode root (path ++ [k] ++ q)
                      /\ nodeAt c q = Some (Text (leafText l))
                      /\ String.length (textBefore c q) = totalLength before) cs ->
  forall k before l after,
    flatChildren leaves k cs = before ++ l :: after ->
    exists j c q,
      cs !! j = Some c
      /\ leafRef l = RNode root (path ++ [k + j] ++ q)
      /\ nodeAt c q = Some (Text (leafText l))
      /\ String.length (concatText (map textContent (take j cs)))
         + String.length (textBefore c q) = totalLength before.
Proof.
  intros Hlen. induction 1 as [|c cs Hc _ IH]; intros k before l after Heq.
  - simpl in Heq. destruct before; discriminate.
  - cbn [flatChildren] in Heq.
    destruct (leaf_in_app _ _ _ _ _ Heq) as [(rest & Hin & _)|(more & -> & Hin)].
    + destruct (Hc k (head cs) before l rest Hin) as (q & Href & Hnode & Htext).
      exists 0, c, q. rewrite Nat.add_0_r. simpl. auto.
    + destruct (IH (S k) more l after Hin) as (j & c' & q & Hj & Href & Hnode & Htext).
      exists (S j), c', q. split; [exact Hj|].
      split; [now replace (k + S j) with (S k + j) by lia|].
      split; [exact Hnode|].
      rewrite totalLength_app, Hlen.
      change (concatText (map textContent (take (S j) (c :: cs))))
        with (String.append (textContent c)
                (concatText (map textContent (take j cs)))).
      rewrite string_length_append. lia.
Qed.

Lemma leavesOf_locate node : forall root path parentNext selfNext before l after,
  leavesOf root path parentNext selfNext node = before ++ l :: after ->
  exists q, leafRef l = RNode root (path ++ q)
            /\ nodeAt node q = Some (Text (leafText l))
            /\ String.length (textBefore node q) = totalLength before.
Proof.
  induction node as [data|tag classes cs IH] using Node_induction;
    intros root path parentNext selfNext before l after Heq.
  - cbn [leavesOf] in Heq. destruct before as [|x before].
    + injection Heq as <- _. exists []. rewrite app_nil_r. auto.
    + injection Heq as _ Heq. destruct before; discriminate.
  - cbn [leavesOf] in Heq.
    set (leaves := fun k next child =>
                     leavesOf root (path ++ [k]) selfNext
                       ((fun n => (RNode root (path ++ [S k]), n)) <$> next) child)
      in Heq.
    destruct (flatChildren_locate root path leaves cs) with
      (k := 0) (before := before) (l := l) (after := after)
      as (j & c & q & Hj & Href & Hnode & Htext).
    + intros k next c. apply totalLength_leavesOf.
    + eapply Forall_impl; [exact IH|]. intros c Hc k next before' l' after' Heq'.
      destruct (Hc _ _ _ _ _ _ _ Heq') as (q & Href & Hnode & Htext).
      exists q. rewrite <- app_assoc in Href. auto.
    + exact Heq.
    + exists (j :: q). simpl in Href. split; [exact Href|].
      cbn [nodeAt textBefore nodeChildren]. rewrite Hj.
      split; [exact Hnode|]. now rewrite string_length_append.
Qed.

Lemma moveCursorToColumn_hit p r element column range :
  0 < String.length (textContent element) ->
  column <= String.length (textContent element) ->
  exists before l after q,
    lineLeaves p r element = before ++ l :: after
    /\ leafRef l = RNode r q
    /\ nodeAt element q = Some (Text (leafText l))
    /\ String.length (textBefore element q) = totalLength before
    /\ totalLength before <= column <= totalLength before + String.length (leafText l)
    /\ caret (moveCursorToColumn p r element column range)
       = moveTo column (leafRef l) (leafParentNext l) (totalLength before).
Proof.
  intros Hlen Hcol. rewrite moveCursorToColumn_scan by assumption.
  assert (totalLength (lineLeaves p r element) = String.length (textContent element))
    as Htotal by apply totalLength_leavesOf.
  destruct (scanLeaves_hit column (lineLeaves p r element) (mkWalk 0 false range 0)
              eq_refl) as (before & l & after & Hsplit & Hbefore & Hreach & Hscan).
  - intros Hnil. rewrite Hnil in Htotal. change (totalLength []) with 0 in Htotal. lia.
  - simpl. lia.
  - destruct (leavesOf_locate element r [] None (nextSibling p r) before l after Hsplit)
      as (q & Href & Hnode & Htext).
    exists before, l, after, q. simpl in *.
    assert (totalLength before <= column) as Hle.
    { destruct Hbefore as [Heq|Hlt]; [|lia]. rewrite Heq. unfold totalLength. simpl. lia. }
    repeat split; try assumption; try lia. now rewrite Hscan.
Qed.

(** X8. Every position that [moveCursorToColumn] sets is a valid boundary
    point, so [range.setEnd] cannot throw on it: either the range is left as
    passed, or the offset is 0, or the container is a text node of the line
    and the offset is at most the length of its text. *)
Theorem moveCursorToColumn_boundary_valid (p : Page) (r : nat) (element : Node)
    (column : nat) (range : Boundary) :
  let b := caret (moveCursorToColumn p r element column range) in
  b = range
  \/ offset b = 0
  \/ exists q text,
       container b = RNode r q
       /\ nodeAt element q = Some (Text text)
       /\ offset b <= String.length text.
Proof.
  intros b. subst b.
  destruct (Nat.eq_dec (String.length (textContent element)) 0) as [Hzero|Hpos].
  - right. left. unfold moveCursorToColumn. now rewrite Hzero.
  - destruct (le_lt_dec column (String.length (textContent element))) as [Hcol|Hcol].
    + destruct (moveCursorToColumn_hit p r element column range ltac:(lia) Hcol)
        as (before & l & after & q & _ & Href & Hnode & _ & Hrange & ->).
      unfold moveTo.
      destruct (leafParentNext l) as [[sibling siblingNode]|].
      * destruct (shouldSetCursor siblingNode); [right; now left|].
        right. right. exists q, (leafText l). simpl. repeat split; auto. lia.
      * right. right. exists q, (leafText l). simpl. repeat split; auto. lia.
    + left. rewrite moveCursorToColumn_miss by lia. reflexivity.
Qed.

(** X9. Without anchor markers the restored caret is at the requested
    column: for a column up to the length of a non-empty line,
    [moveCursorToColumn] sets the range in a text node of the line, at the
    offset for which the text of the line before the caret has exactly
    [column] characters. *)
Theorem moveCursorToColumn_column_roundtrip (p : Page) (r : nat) (element : Node)
    (column : nat) (range : Boundary) :
  0 < String.length (textContent element) ->
  column <= String.length (textContent element) ->
  anchorFree (lineLeaves p r element) ->
  exists q text,
    caret (moveCursorToColumn p r element column range)
    = mkBoundary (RNode r q) (column - String.length (textBefore element q))
    /\ nodeAt element q = Some (Text text)
    /\ String.length (textBefore element q) <= column
       <= String.length (textBefore element q) + String.length text.
Proof.
  intros Hlen Hcol Hfree.
  destruct (moveCursorToColumn_hit p r element column range Hlen Hcol)
    as (before & l & after & q & Hsplit & Href & Hnode & Htext & Hrange & ->).
  exists q, (leafText l). rewrite Htext. split; [|split; assumption].
  unfold anchorFree in Hfree. rewrite Forall_forall in Hfree.
  assert (l ∈ lineLeaves p r element) as Hin.
  { rewrite Hsplit. apply elem_of_app. right. now left. }
  specialize (Hfree l Hin). unfold moveTo. rewrite Href.
  destruct (leafParentNext l) as [[sibling siblingNode]|]; [|reflexivity].
  now rewrite Hfree.
Qed.

(** *** The line of a snapshot and its restore *)

Lemma indexOfRef_range (refs : list nat) r :
  (indexOfRef refs r = (-1)%Z /\ r ∉ refs)
  \/ exists i, refs !! i = Some r /\ indexOfRef refs r = Z.of_nat i.
Proof.
  induction refs as [|x rest IH]; simpl.
  - left. split; [reflexivity | apply not_elem_of_nil].
  - destruct (Nat.eqb x r) eqn:E.
    + apply Nat.eqb_eq in E. subst x. right. exists 0. auto.
    + apply Nat.eqb_neq in E. destruct IH as [[-> Hout]|(i & Hi & ->)].
      * left. simpl. split; [reflexivity|].
        apply not_elem_of_cons. split; [congruence | assumption].
      * right. exists (S i). split; [exact Hi|].
        destruct (Z.of_nat i <? 0)%Z eqn:Hneg; [apply Z.ltb_lt in Hneg; lia | lia].
Qed.

Lemma getCursorPos_selection p w pos :
  getCursorPos p w = Normal (Some pos) -> is_Some (getSelection w).
Proof.
  unfold getCursorPos. destruct (getSelection w); [eauto | discriminate].
Qed.

(** X10. The line of a caret snapshot is -1 or the index of a rendered
    line.  Restoring the snapshot on the same editor goes to that same line;
    a snapshot of line -1 (the caret was in no rendered line that the code
    recognises) is restored into line 0. *)
Theorem getCursorPos_line_bounds (p : Page) (w : Window) (pos : CursorPos) :
  getCursorPos p w = Normal (Some pos) ->
  (line pos = (-1)%Z /\ (children p <> [] -> validLine p pos = 0%Z))
  \/ exists i r,
       line pos = Z.of_nat i /\ children p !! i = Some r
       /\ validLine p pos = line pos.
Proof.
  unfold getCursorPos.
  destruct (getSelection w) as [[|range ranges]|]; try discriminate.
  destruct (getLineElement p w (startContainer range)) as [element|]; [|discriminate].
  intros [= <-]. cbn [line].
  assert (forall k : Z, k = (-1)%Z ->
            children p <> [] ->
            Z.min (Z.max k 0) (Z.of_nat (length (children p)) - 1) = 0%Z) as Hguess.
  { intros k -> Hne. destruct (children p); [congruence | simpl length; lia]. }
  unfold validLine. cbn [line].
  destruct element as [| |k|root path|name up]; try (left; split; [reflexivity|];
    now apply Hguess).
  cbn [indexOf]. destruct path as [|j path];
    [|left; split; [reflexivity | now apply Hguess]].
  destruct (indexOfRef_range (children p) root) as [[Hnone _]|(i & Hi & Hidx)].
  - left. split; [exact Hnone | now apply Hguess].
  - right. exists i, root. rewrite Hidx. split; [reflexivity|]. split; [exact Hi|].
    apply lookup_lt_Some in Hi. lia.
Qed.

(** X12. [setText] restores the caret at its line and column: when the
    caret snapshot is at line [i] and column [c] and the line [i] of the new
    text has [c] characters at least, the caret is set from the rendered line
    [i] of the new text, a line that reads the [i]-th piece of the text: at
    the line element when the line is empty; else in the text node of the
    line for which exactly [c] characters of the line precede the caret; or,
    when the parent of the first text node that reaches the column is
    followed by an anchor marker, at offset 0 of that marker. *)
Theorem setText_restores_in_line (text : string) (w : Window) (p : Page)
    (pos : CursorPos) (i : nat) (lineText : string) :
  wellFormed p ->
  tokenizerRoundTrip doHighlight ->
  getCursorPos p w = Normal (Some pos) ->
  line pos = Z.of_nat i ->
  split text !! i = Some lineText ->
  column pos <= String.length lineText ->
  let p' := fst (setText doHighlight text w p) in
  exists r element b,
    children p' !! i = Some r
    /\ heap p' !! r = Some element
    /\ textContent element = lineText
    /\ snd (setText doHighlight text w p) = Normal (Some b)
    /\ ((lineText = "" /\ b = mkBoundary (RNode r []) 0)
        \/ (exists q leafText,
              nodeAt element q = Some (Text leafText)
              /\ b = mkBoundary (RNode r q)
                       (column pos - String.length (textBefore element q))
              /\ String.length (textBefore element q) <= column pos
                 <= String.length (textBefore element q) + String.length leafText)
        \/ (exists before l after sibling marker,
              lineLeaves p' r element = before ++ l :: after
              /\ totalLength before <= column pos
                 <= totalLength before + String.length (leafText l)
              /\ leafParentNext l = Some (sibling, marker)
              /\ shouldSetCursor marker = true
              /\ b = mkBoundary sibling 0)).
Proof.
  intros Hwf Hrt Hpos Hline Hpiece Hcolumn p'.
  destruct (getCursorPos_selection p w pos Hpos) as [sel Hsel].
  subst p'. unfold setText. rewrite Hpos. cbn [fst snd].
  pose proof (updateText_texts text p Hwf Hrt) as Htexts. cbv zeta in Htexts.
  set (q := updateText doHighlight text p) in *.
  assert (exists r, children q !! i = Some r /\ textOf q r = lineText) as (r & Hr & Htext).
  { rewrite <- Htexts, list_lookup_fmap in Hpiece.
    destruct (children q !! i) as [r|]; [|discriminate].
    injection Hpiece as <-. eauto. }
  destruct (children_live q r) as [element Hel]; [eapply list_elem_of_lookup_2; eauto|].
  assert (textContent element = lineText) as Hcontent.
  { unfold textOf in Htext. now rewrite Hel in Htext. }
  assert (validLine q pos = Z.of_nat i) as Hv.
  { unfold validLine. rewrite Hline. apply lookup_lt_Some in Hr. lia. }
  assert (setCursorPos q w (Some pos)
          = Normal (Some (caret (moveCursorToColumn q r element (column pos)
                                   createRange)))) as Hset.
  { unfold setCursorPos. rewrite Hsel, Hv.
    destruct (Z.of_nat i <? 0)%Z eqn:E; [apply Z.ltb_lt in E; lia|].
    now rewrite Nat2Z.id, Hr, Hel. }
  exists r, element,
    (caret (moveCursorToColumn q r element (column pos) createRange)).
  split; [exact Hr|]. split; [exact Hel|]. split; [exact Hcontent|].
  split; [exact Hset|].
  destruct (Nat.eq_dec (String.length lineText) 0) as [Hempty|Hfull].
  - left. split; [now apply string_length_zero|].
    unfold moveCursorToColumn. rewrite Hcontent, Hempty. reflexivity.
  - right.
    destruct (moveCursorToColumn_hit q r element (column pos) createRange)
      as (before & l & after & path & Hleaves & Href & Hnode & Hbefore & Hreach & ->);
      [rewrite Hcontent; lia | rewrite Hcontent; lia |].
    unfold moveTo.
    destruct (leafParentNext l) as [[sibling marker]|] eqn:Hnext;
      [destruct (shouldSetCursor marker) eqn:Hmarker|].
    + right. exists before, l, after, sibling, marker. auto.
    + left. exists path, (leafText l). rewrite Href, Hbefore. auto.
    + left. exists path, (leafText l). rewrite Href, Hbefore. auto.
Qed.

(** *** From an edit notification to the re-rendered line *)

Lemma reconcile_patches w m r old :
  getSelection w <> Some [] ->
  NoDup (changedLines m) ->
  RNode r [] ∈ changedLines m ->
  attached (page m) r = true ->
  heap (page m) !! r = Some old ->
  heap (page (fst (reconcile doHighlight morphdom w m))) !! r
  = Some (morphdom old (updateLine doHighlight (textContent old)))
  /\ changedLines (fst (reconcile doHighlight morphdom w m)) = [].
Proof.
  intros Hsel Hnd Hin Hatt Hold.
  assert (exists pos, getCursorPos (page m) w = Normal pos) as [pos Hpos].
  { unfold getCursorPos. destruct (getSelection w) as [[|range ranges]|]; eauto.
    - congruence.
    - destruct (getLineElement (page m) w (startContainer range)); eauto. }
  destruct (patchLines_spec w (changedLines m) (page m) (console m))
    as (_ & _ & Hpatch & _ & _).
  unfold reconcile. rewrite Hpos.
  destruct (fold_left (patchLine doHighlight morphdom w) (changedLines m)
              (page m, console m)) as [patched out].
  cbn [fst snd page changedLines] in *. split; [|reflexivity].
  apply persists_normalizeBreaks. now apply Hpatch.
Qed.

(** X13. From an edit to the rendering: after an edit notification that
    resolves to the line [r] and the host's change of the document, exactly
    one task is pending; when it runs (with a caret that can be read) and [r]
    is still a child of the editor, the object [r] holds what the patcher
    makes of it and of [updateLine] of its live text, the dirty set is empty
    and no task is pending. *)
Theorem edit_then_pass_rerenders_line (m : Markjar) (w w2 : Window)
    (start : NodeRef) (ranges : list NodeRef) (edited : Page) (r : nat)
    (old : Node) :
  singleSlot m ->
  NoDup (changedLines m) ->
  getLineElement (page m) w start = Some (RNode r []) ->
  attached edited r = true ->
  heap edited !! r = Some old ->
  getSelection w2 <> Some [] ->
  let m2 := run doHighlight morphdom m
              [BeforeInput w (start :: ranges); HostEdit edited] in
  exists h,
    idleCallbacks m2 = [h]
    /\ let m3 := step doHighlight morphdom m2 (Idle w2 h) in
       heap (page m3) !! r
       = Some (morphdom old (updateLine doHighlight (textContent old)))
       /\ changedLines m3 = []
       /\ idleCallbacks m3 = [].
Proof.
  intros Hslot Hnd Hline Hatt Hold Hsel m2.
  exists (S (idleCounter m)). subst m2. simpl.
  unfold onBeforeInput. rewrite Hline. simpl.
  rewrite (cancel_singleSlot m Hslot). simpl. split; [reflexivity|].
  unfold runIdleCallback. simpl. rewrite Nat.eqb_refl. simpl.
  match goal with
  | |- context [reconcile doHighlight morphdom w2 ?x] =>
      destruct (reconcile_patches w2 x r old Hsel) as [Hpatched Hclear];
        [simpl; now apply NoDup_setAdd
        | simpl; apply elem_of_setAdd; now right
        | exact Hatt | exact Hold |];
      destruct (reconcile_idle w2 x) as (Hidle & _ & _)
  end.
  rewrite Hpatched, Hclear, Hidle. auto.
Qed.

(** X14. A pass whose caret snapshot throws (the selection holds no range)
    patches nothing and logs nothing; the dirty set is kept while no task
    stays pending, and the next notification that resolves to a line
    requests a task again, with every line that was dirty still in the
    dirty set. *)
Theorem failed_pass_keeps_dirty_lines (m : Markjar) (w w' : Window) (h : nat)
    (start : NodeRef) (ranges : list NodeRef) (dirty : NodeRef) :
  idleId m = Some h ->
  idleCallbacks m = [h] ->
  getSelection w = Some [] ->
  getLineElement (page m) w' start = Some dirty ->
  let m1 := step doHighlight morphdom m (Idle w h) in
  let m2 := step doHighlight morphdom m1 (BeforeInput w' (start :: ranges)) in
  page m1 = page m /\ changedLines m1 = changedLines m /\ console m1 = console m
  /\ idleCallbacks m1 = []
  /\ passes m1 = passes m ++ [changedLines m]
  /\ (exists h', idleCallbacks m2 = [h'])
  /\ forall d, d ∈ changedLines m -> d ∈ changedLines m2.
Proof.
  intros Hid Hpending Hsel Hline m1 m2.
  assert (m1 = mkMarkjar (page m) (changedLines m) (idleId m) [] (idleCounter m)
                         (console m) (passes m ++ [changedLines m])) as Hm1.
  { subst m1. simpl. unfold runIdleCallback. rewrite Hpending. simpl.
    rewrite Nat.eqb_refl. simpl. unfold reconcile, getCursorPos. simpl.
    now rewrite Hsel. }
  subst m2. rewrite Hm1. simpl. unfold onBeforeInput. rewrite Hline. simpl.
  rewrite Hid. simpl.
  repeat split; try reflexivity.
  - eexists. reflexivity.
  - intros d Hd. apply elem_of_setAdd. now left.
Qed.

(** *** A caret in a line that the code rendered *)

Lemma deepestDiv_no_div n : forall path, hasDiv n = false -> deepestDiv n path = None.
Proof.
  induction n as [data|tag classes cs IH] using Node_induction; intros path Hno.
  - destruct path as [|k rest]; reflexivity.
  - cbn [hasDiv] in Hno. apply orb_false_iff in Hno as [Htag Hcs].
    destruct path as [|k rest]; cbn [deepestDiv isDiv nodeChildren]; rewrite Htag;
      [reflexivity|].
    destruct (cs !! k) as [c|] eqn:Hk; [|reflexivity].
    rewrite Forall_forall in IH.
    assert (c ∈ cs) as Hin by (eapply list_elem_of_lookup_2; eauto).
    rewrite (IH c Hin rest); [reflexivity|].
    destruct (hasDiv c) eqn:Hc; [|reflexivity].
    assert (existsb hasDiv cs = true) as Hex; [|congruence].
    apply existsb_exists. exists c. split; [now apply list_elem_of_In | assumption].
Qed.

Lemma deepestDiv_flat_line classes cs path :
  existsb hasDiv cs = false ->
  deepestDiv (Element "div" classes cs) path = Some [].
Proof.
  intros Hcs. destruct path as [|k rest]; cbn [deepestDiv isDiv nodeChildren];
    [reflexivity|].
  destruct (cs !! k) as [c|] eqn:Hk; [|reflexivity].
  rewrite deepestDiv_no_div; [reflexivity|].
  destruct (hasDiv c) eqn:Hc; [|reflexivity].
  assert (existsb hasDiv cs = true) as Hex; [|congruence].
  apply existsb_exists. exists c. split; [|assumption].
  apply list_elem_of_In. eapply list_elem_of_lookup_2; eauto.
Qed.

(** X15. A caret anywhere in a line that [createLine] or [updateLine]
    rendered, from a tokenizer that emits no [div], is read as a caret of
    that line: [#getCursorPos] returns the index of the line among the
    rendered lines. *)
Theorem getCursorPos_in_rendered_line (p : Page) (w : Window) (range : Range)
    (ranges : list Range) (r i : nat) (path : list nat) (text : string) :
  wellFormed p ->
  getSelection w = Some (range :: ranges) ->
  startContainer range = RNode r path ->
  children p !! i = Some r ->
  heap p !! r = Some (createLine doHighlight text)
  \/ heap p !! r = Some (updateLine doHighlight text) ->
  existsb hasDiv (doHighlight text) = false ->
  getCursorPos p w
  = Normal (Some (mkCursorPos (Z.of_nat i) (preLength range (RNode r [])))).
Proof.
  intros Hwf Hsel Hstart Hi Hline Hflat.
  assert (existsb hasDiv (nodeChildren (createLine doHighlight text)) = false) as Hcs.
  { unfold createLine. simpl. now destruct (String.eqb text ""). }
  assert (exists n classes cs, heap p !! r = Some n /\ n = Element "div" classes cs
                               /\ existsb hasDiv cs = false)
    as (n & classes & cs & Hn & -> & Hno).
  { destruct Hline as [Hn|Hn].
    - exists (createLine doHighlight text), ["mj-line"],
        (nodeChildren (createLine doHighlight text)). auto.
    - unfold updateLine in Hn.
      destruct (last (nodeChildren (createLine doHighlight text))) as [c|];
        [destruct (isFixedWidthBlock c)|].
      + eexists _, _, _. split; [exact Hn|]. split; [reflexivity|].
        rewrite existsb_app, Hcs. reflexivity.
      + exists (createLine doHighlight text), ["mj-line"],
          (nodeChildren (createLine doHighlight text)). auto.
      + exists (createLine doHighlight text), ["mj-line"],
          (nodeChildren (createLine doHighlight text)). auto. }
  unfold getCursorPos. rewrite Hsel, Hstart.
  rewrite (getLineElement_in_line p w r i path (Element "div" classes cs) Hi Hn
             (or_intror (deepestDiv_flat_line classes cs (removelast path) Hno))).
  simpl.
  now rewrite (indexOfRef_lookup (children p) i r (NoDup_children p Hwf) Hi).
Qed.

End Properties.

(** * The statements at sample inputs *)

Lemma plainTokenizer_roundtrip : tokenizerRoundTrip plainTokenizer.
Proof. intros text. apply string_append_nil. Qed.

Lemma wellFormed_updateText doHighlight text p :
  wellFormed p -> wellFormed (updateText doHighlight text p).
Proof. intros Hwf. now destruct (updateText_spec doHighlight text p Hwf). Qed.

Lemma setText_getText_roundtrip_witness :
  Forall sepFree ["ab"; "cd"]
  /\ tokenizerRoundTrip plainTokenizer
  /\ wellFormed construct
  /\ getText (fst (setText plainTokenizer (join ["ab"; "cd"]) caretWindow construct))
     = join ["ab"; "cd"]
  /\ map (textOf (fst (setText plainTokenizer (join ["ab"; "cd"]) caretWindow
                         construct)))
         (children (fst (setText plainTokenizer (join ["ab"; "cd"]) caretWindow
                           construct)))
     = ["ab"; "cd"].
Proof.
  assert (Forall sepFree ["ab"; "cd"]) as Hfree.
  { repeat constructor; discriminate. }
  assert (getSelection caretWindow <> Some []) as Hsel by discriminate.
  split; [exact Hfree|]. split; [exact plainTokenizer_roundtrip|].
  split; [exact wellFormed_construct|].
  destruct (setText_getText_roundtrip plainTokenizer ["ab"; "cd"] construct
              caretWindow Hfree plainTokenizer_roundtrip wellFormed_construct)
    as (Hround & Hruns & _).
  destruct (Hruns Hsel) as [restored Hrestored].
  cbv zeta in Hround. rewrite Hrestored in Hround.
  destruct Hround as [Htext Hlines].
  split; [exact Htext | apply Hlines; discriminate].
Defined.

Lemma updateText_replaces_exactly_witness :
  wellFormed construct
  /\ length (children (updateText plainTokenizer twoLines construct))
     = length (split twoLines).
Proof.
  split; [exact wellFormed_construct|].
  exact (proj1 (updateText_replaces_exactly plainTokenizer twoLines construct
                  wellFormed_construct)).
Defined.

(** C2 as stated fails: on the line rendered for "# " the caret goes to the
    anchor for column 1, inside the marker leaf, not only for its end 2. *)
Lemma anchor_taken_inside_block_leaf :
  markerLine
  = Element "div" ["mj-line"]
      [Element "span" H1_HASH [Text "# "]; Element "span" ["mj-cursor"] []]
  /\ caret (moveCursorToColumn markerPage 0 markerLine 1 createRange)
     = mkBoundary (RNode 0 [1]) 0
  /\ setCursorPos markerPage caretWindow (Some (mkCursorPos 0 1))
     = Normal (Some (mkBoundary (RNode 0 [1]) 0))
  /\ 1 <> String.length "# ".
Proof.
  split; [vm_compute; reflexivity|].
  split; [vm_compute; reflexivity|].
  split; [vm_compute; reflexivity | discriminate].
Qed.

Lemma anchor_taken_at_block_leaf_witness :
  isFixedWidthBlock (Element "span" H1_HASH [Text "# "]) = true
  /\ shouldSetCursor (Element "span" ["mj-cursor"] []) = true
  /\ 0 < String.length "# "
  /\ 2 <= String.length (concatText (map textContent [])) + String.length "# "
  /\ caret (moveCursorToColumn markerPage 0
              (Element "div" ["mj-line"]
                 ([] ++ [Element "span" H1_HASH [Text "# "];
                         Element "span" ["mj-cursor"] []]))
              2 createRange)
     = mkBoundary (RNode 0 [1]) 0
  /\ caret (moveCursorToColumn markerPage 0 (updateLine headingTokenizer "# ") 2
              createRange)
     = mkBoundary (RNode 0 [1]) 0.
Proof.
  assert (0 < String.length "# ") as Htext by (simpl; lia).
  assert (2 <= String.length (concatText (map textContent []))
               + String.length "# ") as Hcol by (simpl; lia).
  split; [reflexivity|]. split; [reflexivity|].
  split; [exact Htext|]. split; [exact Hcol|].
  pose proof (anchor_taken_at_block_leaf headingTokenizer markerPage 0 "div" ["mj-line"]
                [] "span" H1_HASH "# " (Element "span" ["mj-cursor"] []) 2 createRange
                eq_refl eq_refl Htext (or_introl eq_refl) Hcol) as [Hgeneral Hmarker].
  split; [exact Hgeneral | exact (Hmarker eq_refl)].
Defined.

(** C3 as stated fails: for the line "ab" and column 5 the range stays at
    the start of the document; it is not set at the end of the last leaf. *)
Lemma column_beyond_line_not_at_last_leaf :
  heap oneLinePage !! 1 = Some (Element "div" ["mj-line"] [Text "ab"])
  /\ caret (moveCursorToColumn oneLinePage 1 (Element "div" ["mj-line"] [Text "ab"])
              5 createRange)
     = mkBoundary RDocument 0
  /\ setCursorPos oneLinePage caretWindow (Some (mkCursorPos 0 5))
     = Normal (Some (mkBoundary RDocument 0))
  /\ caret (moveCursorToColumn oneLinePage 1 (Element "div" ["mj-line"] [Text "ab"])
              5 createRange)
     <> mkBoundary (RNode 1 [0]) 2.
Proof.
  split; [vm_compute; reflexivity|].
  split; [vm_compute; reflexivity|].
  split; [vm_compute; reflexivity | vm_compute; discriminate].
Qed.

Lemma column_beyond_line_sets_nothing_witness :
  0 < String.length (textContent (Element "div" ["mj-line"] [Text "ab"]))
  /\ String.length (textContent (Element "div" ["mj-line"] [Text "ab"])) < 5
  /\ moveCursorToColumn oneLinePage 1 (Element "div" ["mj-line"] [Text "ab"]) 5
       createRange
     = mkWalk (String.length (textContent (Element "div" ["mj-line"] [Text "ab"])))
              false createRange
              (length (lineLeaves oneLinePage 1 (Element "div" ["mj-line"] [Text "ab"]))).
Proof.
  assert (0 < String.length (textContent (Element "div" ["mj-line"] [Text "ab"])))
    as Hlen by (simpl; lia).
  assert (String.length (textContent (Element "div" ["mj-line"] [Text "ab"])) < 5)
    as Hcol by (simpl; lia).
  split; [exact Hlen|]. split; [exact Hcol|].
  exact (column_beyond_line_sets_nothing oneLinePage 1 _ 5 createRange Hlen Hcol).
Defined.

(** C4 as stated fails: one edit notification that targets the editor
    itself requests no task, and no pass runs in the idle period after it. *)
Lemma notification_outside_lines_runs_no_pass :
  getLineElement construct caretWindow REditor = None
  /\ idleCallbacks (run plainTokenizer patchToDesired newMarkjar
                      [BeforeInput caretWindow [REditor]]) = []
  /\ passes (run plainTokenizer patchToDesired newMarkjar
               [BeforeInput caretWindow [REditor]; Idle caretWindow 1]) = []
  /\ length (passes (run plainTokenizer patchToDesired newMarkjar
                       [BeforeInput caretWindow [REditor]; Idle caretWindow 1])) <> 1.
Proof.
  split; [reflexivity|]. split; [reflexivity|].
  split; [reflexivity | vm_compute; discriminate].
Qed.

Lemma burst_coalesces_into_one_pass_witness :
  Forall noIdle [BeforeInput caretWindow [RNode 0 []]; HostEdit oneLinePage;
                 BeforeInput caretWindow [RNode 1 []]]
  /\ affectedLines plainTokenizer patchToDesired
       (run plainTokenizer patchToDesired newMarkjar [])
       [BeforeInput caretWindow [RNode 0 []]; HostEdit oneLinePage;
        BeforeInput caretWindow [RNode 1 []]] <> []
  /\ exists h,
       idleCallbacks
         (run plainTokenizer patchToDesired
            (run plainTokenizer patchToDesired newMarkjar [])
            [BeforeInput caretWindow [RNode 0 []]; HostEdit oneLinePage;
             BeforeInput caretWindow [RNode 1 []]]) = [h].
Proof.
  assert (Forall noIdle [BeforeInput caretWindow [RNode 0 []]; HostEdit oneLinePage;
                         BeforeInput caretWindow [RNode 1 []]]) as Hburst.
  { repeat constructor. }
  assert (affectedLines plainTokenizer patchToDesired
            (run plainTokenizer patchToDesired newMarkjar [])
            [BeforeInput caretWindow [RNode 0 []]; HostEdit oneLinePage;
             BeforeInput caretWindow [RNode 1 []]] <> []) as Haffected.
  { vm_compute. discriminate. }
  split; [exact Hburst|]. split; [exact Haffected|].
  destruct (burst_coalesces_into_one_pass plainTokenizer patchToDesired [] _
              Hburst Haffected) as (_ & _ & _ & h & Hpending & _).
  exists h. exact Hpending.
Defined.

(** C5 as stated fails: with the caret at line 5, column 3 of six lines,
    [setText] to the two lines "a" and "b" restores no caret in line 1 (the
    object 8); the restored range is at the start of the document. *)
Lemma caret_beyond_short_line_not_restored :
  getCursorPos sixLinePage lastLineWindow = Normal (Some (mkCursorPos 5 3))
  /\ children (fst (setText plainTokenizer shortLines lastLineWindow sixLinePage))
     = [7; 8]
  /\ textOf (fst (setText plainTokenizer shortLines lastLineWindow sixLinePage)) 8 = "b"
  /\ snd (setText plainTokenizer shortLines lastLineWindow sixLinePage)
     = Normal (Some (mkBoundary RDocument 0))
  /\ ~ exists path offset,
         snd (setText plainTokenizer shortLines lastLineWindow sixLinePage)
         = Normal (Some (mkBoundary (RNode 8 path) offset)).
Proof.
  assert (snd (setText plainTokenizer shortLines lastLineWindow sixLinePage)
          = Normal (Some (mkBoundary RDocument 0))) as Hrestored
      by (vm_compute; reflexivity).
  split; [vm_compute; reflexivity|]. split; [vm_compute; reflexivity|].
  split; [vm_compute; reflexivity|]. split; [exact Hrestored|].
  intros (path & offset & H). rewrite Hrestored in H. discriminate.
Qed.

Lemma caret_restore_clamps_line_only_witness :
  wellFormed twoLinePage
  /\ children twoLinePage <> []
  /\ is_Some (getSelection caretWindow)
  /\ exists r b,
       validLine twoLinePage (mkCursorPos 5 3) = 1%Z
       /\ children twoLinePage !! 1 = Some r
       /\ setCursorPos twoLinePage caretWindow (Some (mkCursorPos 5 3))
          = Normal (Some b).
Proof.
  assert (wellFormed twoLinePage) as Hwf.
  { apply wellFormed_updateText, wellFormed_construct. }
  assert (children twoLinePage <> []) as Hne by (vm_compute; discriminate).
  assert (is_Some (getSelection caretWindow)) as Hsel by (eexists; reflexivity).
  split; [exact Hwf|]. split; [exact Hne|]. split; [exact Hsel|].
  destruct (caret_restore_clamps_line_only twoLinePage caretWindow (mkCursorPos 5 3)
              Hwf Hne Hsel)
    as (r & element & b & _ & _ & Htwo & Hr & _ & Hset & _).
  assert (validLine twoLinePage (mkCursorPos 5 3) = 1%Z) as Hline.
  { apply Htwo; [vm_compute; reflexivity | reflexivity]. }
  exists r, b. rewrite Hline in Hr. split; [exact Hline|]. split; [exact Hr | exact Hset].
Defined.

(** C6 on the code: with a selection that holds no range [#getCursorPos]
    throws, and [setText] with it, leaving the text unset; with a caret in
    a paragraph of another [div] of the document, outside every rendered
    line, it returns line -1 and a column instead of [null]. *)
Theorem getCursorPos_throws_or_guesses :
  getCursorPos construct noRangeWindow = Throw "IndexSizeError"
  /\ setText plainTokenizer "ab" noRangeWindow construct
     = (construct, Throw "IndexSizeError")
  /\ getLineElement construct outsideWindow outsideText
     = Some (RForeign "div" ["body"; "html"])
  /\ getCursorPos construct outsideWindow = Normal (Some (mkCursorPos (-1) 4)).
Proof. repeat split; reflexivity. Qed.

(** C1 on the code: on a page whose selection holds no range,
    [setText("ab")] on a new editor throws at its caret snapshot before
    [#updateText] runs, so [getText()] then returns "" and not "ab", though
    "ab" is a line free of the separator and the tokenizer keeps the text;
    [#updateText] alone would have given the round trip. *)
Theorem setText_roundtrip_lost_without_range :
  Forall sepFree ["ab"]
  /\ tokenizerRoundTrip plainTokenizer
  /\ setText plainTokenizer (join ["ab"]) noRangeWindow construct
     = (construct, Throw "IndexSizeError")
  /\ getText (fst (setText plainTokenizer (join ["ab"]) noRangeWindow construct)) = ""
  /\ getText (fst (setText plainTokenizer (join ["ab"]) noRangeWindow construct))
     <> join ["ab"]
  /\ getText (updateText plainTokenizer (join ["ab"]) construct) = join ["ab"].
Proof.
  split; [repeat constructor; discriminate|].
  split; [exact plainTokenizer_roundtrip|].
  split; [reflexivity|]. split; [reflexivity|]. split; [discriminate | reflexivity].
Qed.

(** C7 on the code: with a selection that holds no range the pass throws
    at its caret snapshot, before the loop over the dirty set: the dirty
    object 0, which is no longer a child of the editor, gets no diagnostic,
    the pass is aborted, the dirty line 1 is not patched and the dirty set
    is not cleared. *)
Theorem detached_line_pass_aborted_without_range :
  RNode 0 [] ∈ changedLines staleMarkjar
  /\ parentElement (page staleMarkjar) noRangeWindow (RNode 0 []) <> Some REditor
  /\ snd (reconcile plainTokenizer patchToDesired noRangeWindow staleMarkjar)
     = Throw "IndexSizeError"
  /\ console (fst (reconcile plainTokenizer patchToDesired noRangeWindow staleMarkjar))
     = []
  /\ page (fst (reconcile plainTokenizer patchToDesired noRangeWindow staleMarkjar))
     = page staleMarkjar
  /\ changedLines (fst (reconcile plainTokenizer patchToDesired noRangeWindow
                          staleMarkjar))
     = [RNode 0 []; RNode 1 []].
Proof.
  split; [simpl; set_solver|].
  split; [vm_compute; discriminate|].
  repeat split; reflexivity.
Qed.

Lemma detached_dirty_line_skipped_witness :
  getSelection caretWindow <> Some []
  /\ NoDup (changedLines staleMarkjar)
  /\ RNode 0 [] ∈ changedLines staleMarkjar
  /\ parentElement (page staleMarkjar) caretWindow (RNode 0 []) <> Some REditor
  /\ Warn "Line not in editor" (RNode 0 [])
       ∈ console (fst (reconcile plainTokenizer patchToDesired caretWindow staleMarkjar))
  /\ changedLines (fst (reconcile plainTokenizer patchToDesired caretWindow staleMarkjar))
     = [].
Proof.
  assert (getSelection caretWindow <> Some []) as Hsel by discriminate.
  assert (NoDup (changedLines staleMarkjar)) as Hnd.
  { simpl. apply NoDup_cons. split; [|apply NoDup_singleton].
    intros [=]%list_elem_of_singleton. }
  assert (RNode 0 [] ∈ changedLines staleMarkjar) as Hin by (simpl; set_solver).
  assert (parentElement (page staleMarkjar) caretWindow (RNode 0 []) <> Some REditor)
    as Hparent by (vm_compute; discriminate).
  split; [exact Hsel|]. split; [exact Hnd|]. split; [exact Hin|].
  split; [exact Hparent|].
  destruct (detached_dirty_line_skipped plainTokenizer patchToDesired caretWindow
              staleMarkjar (RNode 0 []) Hsel Hnd Hin Hparent)
    as (Hwarn & _ & _ & Hcleared & _).
  split; [exact Hwarn | exact Hcleared].
Defined.

Lemma empty_line_fast_path_witness :
  is_Some (getSelection caretWindow)
  /\ children construct !! Z.to_nat (validLine construct (mkCursorPos 0 7)) = Some 0
  /\ heap construct !! 0 = Some (Element "div" ["mj-line"] [])
  /\ String.length (textContent (Element "div" ["mj-line"] [])) = 0
  /\ setCursorPos construct caretWindow (Some (mkCursorPos 0 7))
     = Normal (Some (mkBoundary (RNode 0 []) 0)).
Proof.
  assert (is_Some (getSelection caretWindow)) as Hsel by (eexists; reflexivity).
  assert (children construct !! Z.to_nat (validLine construct (mkCursorPos 0 7)) = Some 0)
    as Hr by (vm_compute; reflexivity).
  assert (heap construct !! 0 = Some (Element "div" ["mj-line"] [])) as Hel
      by (vm_compute; reflexivity).
  split; [exact Hsel|]. split; [exact Hr|]. split; [exact Hel|].
  split; [reflexivity|].
  exact (proj2 (empty_line_fast_path construct caretWindow (mkCursorPos 0 7) 0
                  (Element "div" ["mj-line"] []) Hsel Hr Hel eq_refl)).
Defined.

(** ** The further properties at sample inputs *)

Lemma wellFormed_brPage : wellFormed brPage.
Proof.
  split; simpl.
  - apply NoDup_cons. split; [intros [=]%list_elem_of_singleton | apply NoDup_singleton].
  - intros r [->|[->|[]%elem_of_nil]%elem_of_cons]%elem_of_cons;
      vm_compute; eauto.
Qed.

Lemma wellFormed_twoLinePage : wellFormed twoLinePage.
Proof. apply wellFormed_updateText, wellFormed_construct. Qed.

Lemma wellFormed_oneLinePage : wellFormed oneLinePage.
Proof. apply wellFormed_updateText, wellFormed_construct. Qed.

Lemma wellFormed_sixLinePage : wellFormed sixLinePage.
Proof. apply wellFormed_updateText, wellFormed_construct. Qed.

Lemma getCursorPos_line_of_caret_witness :
  wellFormed twoLinePage
  /\ children twoLinePage !! 1 = Some 2
  /\ heap twoLinePage !! 2 = Some (Element "div" ["mj-line"] [Text "cd"])
  /\ getCursorPos twoLinePage secondLineWindow = Normal (Some (mkCursorPos 1 1)).
Proof.
  assert (children twoLinePage !! 1 = Some 2) as Hi by (vm_compute; reflexivity).
  assert (heap twoLinePage !! 2 = Some (Element "div" ["mj-line"] [Text "cd"])) as Hn
      by (vm_compute; reflexivity).
  split; [exact wellFormed_twoLinePage|]. split; [exact Hi|]. split; [exact Hn|].
  exact (getCursorPos_line_of_caret twoLinePage secondLineWindow _ [] 2 1 [0] _
           wellFormed_twoLinePage eq_refl eq_refl Hi Hn (or_intror eq_refl)).
Defined.

Lemma updateText_getText_noop_witness :
  children twoLinePage <> []
  /\ Forall sepFree (map (textOf twoLinePage) (children twoLinePage))
  /\ updateText plainTokenizer (getText twoLinePage) twoLinePage = twoLinePage.
Proof.
  assert (children twoLinePage <> []) as Hne by (vm_compute; discriminate).
  assert (Forall sepFree (map (textOf twoLinePage) (children twoLinePage))) as Hfree.
  { vm_compute. repeat constructor; discriminate. }
  split; [exact Hne|]. split; [exact Hfree|].
  exact (updateText_getText_noop plainTokenizer twoLinePage Hne Hfree).
Defined.

Lemma updateText_idempotent_witness :
  wellFormed construct
  /\ tokenizerRoundTrip plainTokenizer
  /\ updateText plainTokenizer twoLines (updateText plainTokenizer twoLines construct)
     = updateText plainTokenizer twoLines construct.
Proof.
  split; [exact wellFormed_construct|]. split; [exact plainTokenizer_roundtrip|].
  exact (updateText_idempotent plainTokenizer twoLines construct wellFormed_construct
           plainTokenizer_roundtrip).
Defined.

Lemma updateLine_text_and_anchor_witness :
  tokenizerRoundTrip plainTokenizer
  /\ Forall (fun c => shouldSetCursor c = false) (plainTokenizer "ab")
  /\ textContent (updateLine plainTokenizer "ab") = "ab".
Proof.
  assert (Forall (fun c => shouldSetCursor c = false) (plainTokenizer "ab")) as Hplain.
  { repeat constructor. }
  split; [exact plainTokenizer_roundtrip|]. split; [exact Hplain|].
  exact (proj1 (updateLine_text_and_anchor plainTokenizer "ab"
                  plainTokenizer_roundtrip Hplain)).
Defined.

Lemma normalizeBreaks_replaces_breaks_witness :
  wellFormed brPage
  /\ length (childNodes (normalizeBreaks plainTokenizer brPage))
     = length (childNodes brPage).
Proof.
  split; [exact wellFormed_brPage|].
  exact (proj1 (proj2 (normalizeBreaks_replaces_breaks plainTokenizer brPage
                         wellFormed_brPage))).
Defined.

Lemma reconcile_preserves_text_witness :
  wellFormed (page staleMarkjar)
  /\ tokenizerRoundTrip plainTokenizer
  /\ patcherDelivers patchToDesired
  /\ dirtyLinesAreElements (page staleMarkjar) (changedLines staleMarkjar)
  /\ strayBreaksEmpty (page staleMarkjar)
  /\ getText (page (fst (reconcile plainTokenizer patchToDesired caretWindow
                           staleMarkjar)))
     = getText (page staleMarkjar).
Proof.
  assert (patcherDelivers patchToDesired) as Hdelivers by (intros a b; reflexivity).
  assert (dirtyLinesAreElements (page staleMarkjar) (changedLines staleMarkjar))
    as Helements.
  { intros r Hin Hatt. simpl in Hin.
    apply elem_of_cons in Hin as [[= ->]|Hin]; [vm_compute in Hatt; discriminate|].
    apply list_elem_of_singleton in Hin as [= ->]. vm_compute. reflexivity. }
  assert (strayBreaksEmpty (page staleMarkjar)) as Hempty.
  { intros r Hin Hbr. simpl in Hin.
    assert (childNodes oneLinePage = [1]) as Hch by (vm_compute; reflexivity).
    rewrite Hch in Hin. apply list_elem_of_singleton in Hin as ->.
    vm_compute in Hbr. discriminate. }
  split; [exact wellFormed_oneLinePage|]. split; [exact plainTokenizer_roundtrip|].
  split; [exact Hdelivers|]. split; [exact Helements|]. split; [exact Hempty|].
  exact (reconcile_preserves_text plainTokenizer patchToDesired caretWindow staleMarkjar
           wellFormed_oneLinePage plainTokenizer_roundtrip Hdelivers Helements Hempty).
Defined.

Lemma reconcile_twice_changes_nothing_witness :
  wellFormed (page staleMarkjar)
  /\ getSelection caretWindow <> Some []
  /\ page (fst (reconcile plainTokenizer patchToDesired noRangeWindow
                  (fst (reconcile plainTokenizer patchToDesired caretWindow
                          staleMarkjar))))
     = page (fst (reconcile plainTokenizer patchToDesired caretWindow staleMarkjar)).
Proof.
  assert (getSelection caretWindow <> Some []) as Hsel by discriminate.
  split; [exact wellFormed_oneLinePage|]. split; [exact Hsel|].
  exact (proj1 (reconcile_twice_changes_nothing plainTokenizer patchToDesired
                  caretWindow noRangeWindow staleMarkjar wellFormed_oneLinePage Hsel)).
Defined.

Lemma moveCursorToColumn_column_roundtrip_witness :
  0 < String.length (textContent (Element "div" ["mj-line"] [Text "ab"]))
  /\ 1 <= String.length (textContent (Element "div" ["mj-line"] [Text "ab"]))
  /\ anchorFree (lineLeaves oneLinePage 1 (Element "div" ["mj-line"] [Text "ab"]))
  /\ exists q text,
       caret (moveCursorToColumn oneLinePage 1 (Element "div" ["mj-line"] [Text "ab"])
                1 createRange)
       = mkBoundary (RNode 1 q)
           (1 - String.length (textBefore (Element "div" ["mj-line"] [Text "ab"]) q))
       /\ nodeAt (Element "div" ["mj-line"] [Text "ab"]) q = Some (Text text).
Proof.
  assert (0 < String.length (textContent (Element "div" ["mj-line"] [Text "ab"])))
    as Hlen by (simpl; lia).
  assert (1 <= String.length (textContent (Element "div" ["mj-line"] [Text "ab"])))
    as Hcol by (simpl; lia).
  assert (anchorFree (lineLeaves oneLinePage 1 (Element "div" ["mj-line"] [Text "ab"])))
    as Hfree.
  { unfold anchorFree. vm_compute. repeat constructor. }
  split; [exact Hlen|]. split; [exact Hcol|]. split; [exact Hfree|].
  destruct (moveCursorToColumn_column_roundtrip oneLinePage 1
              (Element "div" ["mj-line"] [Text "ab"]) 1 createRange Hlen Hcol Hfree)
    as (q & text & Hcaret & Hnode & _).
  exists q, text. split; assumption.
Defined.

Lemma getCursorPos_line_bounds_witness :
  getCursorPos sixLinePage lastLineWindow = Normal (Some (mkCursorPos 5 3))
  /\ validLine sixLinePage (mkCursorPos 5 3) = 5%Z.
Proof.
  assert (getCursorPos sixLinePage lastLineWindow = Normal (Some (mkCursorPos 5 3)))
    as Hpos by (vm_compute; reflexivity).
  split; [exact Hpos|].
  destruct (getCursorPos_line_bounds sixLinePage lastLineWindow (mkCursorPos 5 3) Hpos)
    as [[Hguess _]|(i & r & _ & _ & Hsame)]; [discriminate | exact Hsame].
Defined.

Lemma setCursorPos_throws_iff_witness :
  wellFormed construct
  /\ ~ exists e, setCursorPos construct caretWindow (Some (mkCursorPos 0 0)) = Throw e.
Proof.
  split; [exact wellFormed_construct|].
  intros Hthrow.
  apply (setCursorPos_throws_iff construct caretWindow (Some (mkCursorPos 0 0))
           wellFormed_construct) in Hthrow as (_ & _ & Hnone).
  rewrite children_construct in Hnone. discriminate.
Defined.

Lemma setText_restores_in_line_witness :
  wellFormed sixLinePage
  /\ tokenizerRoundTrip plainTokenizer
  /\ getCursorPos sixLinePage lastLineWindow = Normal (Some (mkCursorPos 5 3))
  /\ split sixLines !! 5 = Some "line5"
  /\ 3 <= String.length "line5"
  /\ exists r element b,
       children (fst (setText plainTokenizer sixLines lastLineWindow sixLinePage)) !! 5
       = Some r
       /\ heap (fst (setText plainTokenizer sixLines lastLineWindow sixLinePage)) !! r
          = Some element
       /\ textContent element = "line5"
       /\ snd (setText plainTokenizer sixLines lastLineWindow sixLinePage)
          = Normal (Some b)
       /\ b = mkBoundary (RNode 6 [0]) 3.
Proof.
  assert (getCursorPos sixLinePage lastLineWindow = Normal (Some (mkCursorPos 5 3)))
    as Hpos by (vm_compute; reflexivity).
  assert (split sixLines !! 5 = Some "line5") as Hpiece by (vm_compute; reflexivity).
  assert (3 <= String.length "line5") as Hcolumn by (simpl; lia).
  split; [exact wellFormed_sixLinePage|]. split; [exact plainTokenizer_roundtrip|].
  split; [exact Hpos|]. split; [exact Hpiece|]. split; [exact Hcolumn|].
  destruct (setText_restores_in_line plainTokenizer sixLines lastLineWindow sixLinePage
              (mkCursorPos 5 3) 5 "line5" wellFormed_sixLinePage
              plainTokenizer_roundtrip Hpos eq_refl Hpiece Hcolumn)
    as (r & element & b & Hr & Hel & Htext & Hset & _).
  exists r, element, b. split; [exact Hr|]. split; [exact Hel|].
  split; [exact Htext|]. split; [exact Hset|].
  assert (snd (setText plainTokenizer sixLines lastLineWindow sixLinePage)
          = Normal (Some (mkBoundary (RNode 6 [0]) 3))) as Hvalue
      by (vm_compute; reflexivity).
  rewrite Hvalue in Hset. now injection Hset as <-.
Defined.

Lemma edit_then_pass_rerenders_line_witness :
  singleSlot newMarkjar
  /\ NoDup (changedLines newMarkjar)
  /\ getLineElement (page newMarkjar) caretWindow (RNode 0 []) = Some (RNode 0 [])
  /\ attached typedPage 0 = true
  /\ heap typedPage !! 0 = Some (Element "div" ["mj-line"] [Text "# "])
  /\ getSelection caretWindow <> Some []
  /\ exists h,
       idleCallbacks (run headingTokenizer patchToDesired newMarkjar
                        [BeforeInput caretWindow [RNode 0 []]; HostEdit typedPage])
       = [h]
       /\ heap (page (step headingTokenizer patchToDesired
                        (run headingTokenizer patchToDesired newMarkjar
                           [BeforeInput caretWindow [RNode 0 []]; HostEdit typedPage])
                        (Idle caretWindow h))) !! 0
          = Some (patchToDesired (Element "div" ["mj-line"] [Text "# "])
                    (updateLine headingTokenizer
                       (textContent (Element "div" ["mj-line"] [Text "# "])))).
Proof.
  assert (singleSlot newMarkjar) as Hslot by (now left).
  assert (NoDup (changedLines newMarkjar)) as Hnd by apply NoDup_nil_2.
  assert (getLineElement (page newMarkjar) caretWindow (RNode 0 []) = Some (RNode 0 []))
    as Hline by (vm_compute; reflexivity).
  assert (attached typedPage 0 = true) as Hatt by reflexivity.
  assert (heap typedPage !! 0 = Some (Element "div" ["mj-line"] [Text "# "])) as Hold
      by (vm_compute; reflexivity).
  assert (getSelection caretWindow <> Some []) as Hsel by discriminate.
  split; [exact Hslot|]. split; [exact Hnd|]. split; [exact Hline|].
  split; [exact Hatt|]. split; [exact Hold|]. split; [exact Hsel|].
  destruct (edit_then_pass_rerenders_line headingTokenizer patchToDesired newMarkjar
              caretWindow caretWindow (RNode 0 []) [] typedPage 0 _
              Hslot Hnd Hline Hatt Hold Hsel) as (h & Hpending & Hpatched & _).
  exists h. split; [exact Hpending | exact Hpatched].
Defined.

Lemma failed_pass_keeps_dirty_lines_witness :
  idleId armedMarkjar = Some 1
  /\ idleCallbacks armedMarkjar = [1]
  /\ getSelection noRangeWindow = Some []
  /\ getLineElement (page armedMarkjar) caretWindow (RNode 0 []) = Some (RNode 0 [])
  /\ changedLines (step plainTokenizer patchToDesired armedMarkjar (Idle noRangeWindow 1))
     = changedLines armedMarkjar.
Proof.
  assert (getLineElement (page armedMarkjar) caretWindow (RNode 0 []) = Some (RNode 0 []))
    as Hline by (vm_compute; reflexivity).
  split; [reflexivity|]. split; [reflexivity|]. split; [reflexivity|].
  split; [exact Hline|].
  exact (proj1 (proj2 (failed_pass_keeps_dirty_lines plainTokenizer patchToDesired
                         armedMarkjar noRangeWindow caretWindow 1 (RNode 0 []) []
                         (RNode 0 []) eq_refl eq_refl eq_refl Hline))).
Defined.

Lemma getCursorPos_in_rendered_line_witness :
  wellFormed twoLinePage
  /\ children twoLinePage !! 1 = Some 2
  /\ heap twoLinePage !! 2 = Some (createLine plainTokenizer "cd")
  /\ existsb hasDiv (plainTokenizer "cd") = false
  /\ getCursorPos twoLinePage secondLineWindow = Normal (Some (mkCursorPos 1 1)).
Proof.
  assert (children twoLinePage !! 1 = Some 2) as Hi by (vm_compute; reflexivity).
  assert (heap twoLinePage !! 2 = Some (createLine plainTokenizer "cd")) as Hn
      by (vm_compute; reflexivity).
  split; [exact wellFormed_twoLinePage|]. split; [exact Hi|]. split; [exact Hn|].
  split; [reflexivity|].
  exact (getCursorPos_in_rendered_line plainTokenizer twoLinePage secondLineWindow _ []
           2 1 [0] "cd" wellFormed_twoLinePage eq_refl eq_refl Hi (or_introl Hn)
           eq_refl).
Defined.
